(** * Multi-backend post store (src/db.js)

    A shallow embedding of the replication layer of [db.js]: the fan-out
    writer [savePosts], the primary-then-fallback reader [isGuidExists], the
    health prober [testAllConnections], the statistics collector
    [getAllDatabaseStats] and the shutdown routine [closeAllConnections].

    Modelling decisions:
    - a connection pool is an object of the [pg] driver with internal state.
      It is modelled by the function that decides how the pool answers a call
      given every call it has received so far, together with that history;
      the history is the pool's state, so "no statement was issued" is "the
      history did not change".  Properties stated for every pool hold
      whatever the backends do;
    - the driver rejects with [Error] objects, so a thrown value carries a
      [message];
    - every [async] callback handed to [allPools.map] touches the pool of its
      own registry entry only, so the interleaving of the callbacks at their
      [await] points does not influence what any of them computes: the
      fan-out is the list of the callbacks' completions, each run on its own
      pool;
    - the functions are written for any registry; [allPools] is the one of
      the source, with its three named entries, the primary first;
    - [console] output is not part of the model. *)

From Stdlib Require Import List String ZArith Bool Arith Lia DecimalString.
From Stdlib Require Import Permutation.
Import ListNotations.
Open Scope string_scope.
Open Scope list_scope.

(** ** JavaScript values *)

#[warnings="-register-all"]
Inductive Value : Type :=
| VUndefined
| VNull
| VBool (b : bool)
| VNum (z : Z)
| VNaN
| VStr (s : string)
| VObj (props : list (string * Value))
| VArr (items : list Value).

(** The value thrown by a failing operation: an [Error] object. *)
Record Error : Type := { message : string }.

(** How a piece of code completes: normally with a value, or by throwing. *)
Inductive Completion (A : Type) : Type :=
| Return (a : A)
| Throw (e : Error).
Arguments Return {A} a.
Arguments Throw {A} e.

(** Own-property lookup in an object literal; an absent property reads as
    [undefined]. *)
Fixpoint lookup (k : string) (props : list (string * Value)) : Value :=
  match props with
  | [] => VUndefined
  | (k', v) :: rest => if String.eqb k k' then v else lookup k rest
  end.

Definition typeError (what k : string) : Error :=
  {| message := ("Cannot read properties of " ++ what
                 ++ " (reading '" ++ k ++ "')")%string |}.

(** [v.k]: reading a property of [undefined] or [null] throws a TypeError;
    only own properties of object literals are modelled, any other read
    gives [undefined]. *)
Definition getProp (v : Value) (k : string) : Completion Value :=
  match v with
  | VUndefined => Throw (typeError "undefined" k)
  | VNull => Throw (typeError "null" k)
  | VObj props => Return (lookup k props)
  | _ => Return VUndefined
  end.

(** [v?.k] *)
Definition getPropOpt (v : Value) (k : string) : Value :=
  match v with
  | VObj props => lookup k props
  | _ => VUndefined
  end.

(** JavaScript truthiness, as used by [||]. *)
Definition truthy (v : Value) : bool :=
  match v with
  | VUndefined | VNull | VNaN => false
  | VBool b => b
  | VNum z => negb (z =? 0)%Z
  | VStr s => negb (String.eqb s "")
  | VObj _ | VArr _ => true
  end.

Definition isArray (v : Value) : bool :=
  match v with VArr _ => true | _ => false end.

Definition arrayItems (v : Value) : list Value :=
  match v with VArr items => items | _ => [] end.

(** ** Computations over a state that may throw *)

Definition M (S A : Type) : Type := S -> Completion A * S.

Definition ret {S A} (a : A) : M S A := fun s => (Return a, s).

Definition bind {S A B} (m : M S A) (k : A -> M S B) : M S B :=
  fun s => match m s with
           | (Return a, s') => k a s'
           | (Throw e, s') => (Throw e, s')
           end.

Definition lift {S A} (c : Completion A) : M S A := fun s => (c, s).

(** [try { body } catch (error) { handler }] *)
Definition tryCatch {S A} (body : M S A) (handler : Error -> M S A) : M S A :=
  fun s => match body s with
           | (Return a, s') => (Return a, s')
           | (Throw e, s') => handler e s'
           end.

Notation "x <- m ;; k" := (bind m (fun x => k))
  (at level 61, m at next level, right associativity).
Notation "m ;;; k" := (bind m (fun _ => k))
  (at level 61, right associativity).

(** ** Connection pools *)

Inductive Call : Type :=
| Query (sql : string) (params : list Value)
| End.

Record QueryResult : Type := { rows : list Value; rowCount : Z }.

Inductive Outcome : Type :=
| Resolves (r : QueryResult)
| Rejects (e : Error).

Record Pool : Type := {
  respond : list Call -> Call -> Outcome;
  history : list Call
}.

Definition record (c : Call) (p : Pool) : Pool :=
  {| respond := respond p; history := history p ++ [c] |}.

Definition answer (p : Pool) (c : Call) : Outcome := respond p (history p) c.
Arguments answer : simpl never.

Definition call (c : Call) : M Pool QueryResult :=
  fun p => (match answer p c with
            | Resolves r => Return r
            | Rejects e => Throw e
            end, record c p).

(** [dbPool.query(sql, params)] *)
Definition query (sql : string) (params : list Value) : M Pool QueryResult :=
  call (Query sql params).

(** [dbPool.end()] *)
Definition endPool : M Pool unit := call End ;;; ret tt.

(** ** The registry *)

Record Entry : Type := { name : string; pool : Pool }.

(** The state of the module: the registry array with the pools it holds. *)
Definition World : Type := list Entry.

Definition allPools (pool cockroachPool neonPool : Pool) : World :=
  [ {| name := "Aiven PostgreSQL"; pool := pool |};
    {| name := "CockroachDB"; pool := cockroachPool |};
    {| name := "Neon"; pool := neonPool |} ].

(** ** Fan-out: [allPools.map(async ...)] joined by [Promise.allSettled] *)

Inductive Settled (A : Type) : Type :=
| Fulfilled (value : A)
| Rejected (reason : Error).
Arguments Fulfilled {A} value.
Arguments Rejected {A} reason.

Definition settle {A} (c : Completion A) : Settled A :=
  match c with
  | Return a => Fulfilled a
  | Throw e => Rejected e
  end.

Definition isFulfilled {A} (r : Settled A) : bool :=
  match r with Fulfilled _ => true | Rejected _ => false end.

(** Runs the callback of one registry entry on that entry's pool. *)
Definition runOn {A} (task : string -> M Pool A) (e : Entry)
  : Completion A * Entry :=
  let '(c, p) := task (name e) (pool e) in (c, {| name := name e; pool := p |}).

Fixpoint allSettled {A} (task : string -> M Pool A) (w : World)
  : list (Settled A) * World :=
  match w with
  | [] => ([], [])
  | e :: rest =>
      let '(c, e') := runOn task e in
      let '(results, rest') := allSettled task rest in
      (settle c :: results, e' :: rest')
  end.

(** ** savePosts *)

Definition createTableQuery : string := "
    CREATE TABLE IF NOT EXISTS posts (
      id SERIAL PRIMARY KEY,
      title TEXT,
      creator TEXT,
      description TEXT,
      link TEXT,
      pubDate TEXT,
      guid TEXT UNIQUE,
      guidIsPermaLink TEXT,
      source TEXT,
      sourceUrl TEXT,
      created_at TIMESTAMP DEFAULT CURRENT_TIMESTAMP
    )
  ".

Definition insertQuery : string := "
    INSERT INTO posts (title, creator, description, link, pubDate, guid, guidIsPermaLink, source, sourceUrl)
    VALUES ($1,$2,$3,$4,$5,$6,$7,$8,$9)
    ON CONFLICT (guid) DO NOTHING
  ".

Record BatchOutcome : Type := {
  bo_name : string;
  success : bool;
  bo_error : option string
}.

Definition postColumns : list string :=
  ["title"; "creator"; "description"; "link"; "pubDate"; "guid";
   "guidIsPermaLink"; "source"; "sourceUrl"].

Fixpoint readProps (v : Value) (ks : list string) : Completion (list Value) :=
  match ks with
  | [] => Return []
  | k :: rest =>
      match getProp v k with
      | Throw e => Throw e
      | Return x =>
          match readProps v rest with
          | Throw e => Throw e
          | Return xs => Return (x :: xs)
          end
      end
  end.

(** The parameter array [[post.title, post.creator, ..., post.sourceUrl]]. *)
Definition insertParams (post : Value) : Completion (list Value) :=
  readProps post postColumns.

(** [for (const post of posts) await dbPool.query(insertQuery, [...])] *)
Fixpoint insertAll (posts : list Value) : M Pool unit :=
  match posts with
  | [] => ret tt
  | post :: rest =>
      params <- lift (insertParams post) ;;
      query insertQuery params ;;;
      insertAll rest
  end.

Definition saveTask (posts : list Value) (name : string)
  : M Pool BatchOutcome :=
  tryCatch
    (query createTableQuery [] ;;;
     insertAll posts ;;;
     ret {| bo_name := name; success := true; bo_error := None |})
    (fun error =>
       ret {| bo_name := name; success := false;
              bo_error := Some (message error) |}).

Definition savePromises (posts : list Value) (w : World)
  : list (Settled BatchOutcome) * World :=
  allSettled (saveTask posts) w.

Definition successCount (results : list (Settled BatchOutcome)) : nat :=
  List.length (filter (fun result =>
                    match result with
                    | Fulfilled value => success value
                    | Rejected _ => false
                    end) results).

Definition allFailed : Error := {| message := "所有数据库保存都失败了" |}.

Definition savePosts (posts : Value) : M World unit :=
  fun w =>
    if negb (isArray posts) || (List.length (arrayItems posts) =? 0)%nat
    then (Return tt, w)
    else
      let '(results, w') := savePromises (arrayItems posts) w in
      if (successCount results =? 0)%nat
      then (Throw allFailed, w')
      else (Return tt, w').

(** ** isGuidExists *)

Definition guidQuery : string := "SELECT 1 FROM posts WHERE guid = $1 LIMIT 1".

(** One [try { res = await p.query(...); if (res.rowCount > 0) return true }
    catch (error) { warn }] block of [isGuidExists], which has the same shape
    for the primary and for each fallback.  The result [true] stands for the
    early [return true]; [false] for leaving the block without returning. *)
Definition findGuid (guid : Value) (_ : string) : M Pool bool :=
  tryCatch
    (res <- query guidQuery [guid] ;;
     ret (0 <? rowCount res)%Z)
    (fun _ => ret false).

(** [for (const { name, pool: dbPool } of allPools.slice(1)) ...; return false] *)
Fixpoint scanFallbacks (guid : Value) (fallbacks : list Entry)
  : Completion bool * list Entry :=
  match fallbacks with
  | [] => (Return false, [])
  | e :: rest =>
      let '(c, e') := runOn (findGuid guid) e in
      match c with
      | Throw err => (Throw err, e' :: rest)
      | Return true => (Return true, e' :: rest)
      | Return false =>
          let '(found, rest') := scanFallbacks guid rest in
          (found, e' :: rest')
      end
  end.

(** [pool] is the pool of the first registry entry; the registry of the
    source is never empty. *)
Definition isGuidExists (guid : Value) : M World bool :=
  fun w =>
    match w with
    | [] => (Return false, [])
    | primary :: fallbacks =>
        let '(c, primary') := runOn (findGuid guid) primary in
        match c with
        | Throw err => (Throw err, primary' :: fallbacks)
        | Return true => (Return true, primary' :: fallbacks)
        | Return false =>
            let '(found, fallbacks') := scanFallbacks guid fallbacks in
            (found, primary' :: fallbacks')
        end
    end.

(** ** testAllConnections *)

Definition pingQuery : string := "SELECT 1".

Record ProbeResult : Type := {
  pr_name : string;
  connected : bool;
  pr_error : option string
}.

Definition testTask (name : string) : M Pool ProbeResult :=
  tryCatch
    (query pingQuery [] ;;;
     ret {| pr_name := name; connected := true; pr_error := None |})
    (fun error =>
       ret {| pr_name := name; connected := false;
              pr_error := Some (message error) |}).

Definition testPromises (w : World) : list (Settled ProbeResult) * World :=
  allSettled testTask w.

Definition connectedCount (results : list (Settled ProbeResult)) : nat :=
  List.length (filter (fun result =>
                         match result with
                         | Fulfilled value => connected value
                         | Rejected _ => false
                         end) results).

(** The function returns the array produced by [Promise.allSettled] as it
    is. *)
Definition testAllConnections : M World (list (Settled ProbeResult)) :=
  fun w => let '(results, w') := testPromises w in (Return results, w').

(** ** getAllDatabaseStats *)

Definition countQuery : string := "SELECT COUNT(*) as count FROM posts".

Definition latestQuery : string :=
  "SELECT created_at FROM posts ORDER BY created_at DESC LIMIT 1".

Record StatsSnapshot : Type := {
  st_name : string;
  totalPosts : Value;
  latestPost : Value;
  status : string;
  st_error : option string
}.

(** [result.rows[0]] *)
Definition firstRow (r : QueryResult) : Value := nth 0 (rows r) VUndefined.

(** [a || b] *)
Definition orElse (a b : Value) : Value := if truthy a then a else b.

Definition errorSnapshot (name : string) (error : Error) : StatsSnapshot :=
  {| st_name := name; totalPosts := VNum (-1); latestPost := VNull;
     status := "error"; st_error := Some (message error) |}.

Section Stats.

(** The built-in [parseInt], which the module applies to the count column
    that the driver hands back. *)
Variable parseInt : Value -> Value.

Definition statsTask (name : string) : M Pool StatsSnapshot :=
  tryCatch
    (countResult <- query countQuery [] ;;
     latestResult <- query latestQuery [] ;;
     count <- lift (getProp (firstRow countResult) "count") ;;
     ret {| st_name := name;
            totalPosts := parseInt count;
            latestPost :=
              orElse (getPropOpt (firstRow latestResult) "created_at") VNull;
            status := "healthy";
            st_error := None |})
    (fun error => ret (errorSnapshot name error)).

Definition statsPromises (w : World) : list (Settled StatsSnapshot) * World :=
  allSettled statsTask w.

(** [results.map(result => result.status === 'fulfilled' ? result.value
    : result.reason)]: an entry is a snapshot, or the reason of a rejected
    callback. *)
Definition getAllDatabaseStats : M World (list (StatsSnapshot + Error)) :=
  fun w =>
    let '(results, w') := statsPromises w in
    (Return (map (fun result =>
                    match result with
                    | Fulfilled value => inl value
                    | Rejected reason => inr reason
                    end) results), w').

End Stats.

(** ** closeAllConnections *)

Definition closeTask (_ : string) : M Pool unit :=
  tryCatch endPool (fun _ => ret tt).

Definition closePromises (w : World) : list (Settled unit) * World :=
  allSettled closeTask w.

Definition closeAllConnections : M World unit :=
  fun w => let '(_, w') := closePromises w in (Return tt, w').

(** ** A healthy backend

    The database the statements above are written for: one table [posts]
    with the nine text columns of [createTableQuery], [guid] unique, and a
    creation time the server assigns.  The generated [id] is read by no
    statement of the module and is left out.  Text columns are nullable; as
    in PostgreSQL a NULL [guid] conflicts with nothing.  Ending the pool
    releases connections and leaves the data alone; what the driver does
    with a pool used after its end is not modelled. *)

Record Row : Type := {
  title : option string;
  creator : option string;
  description : option string;
  link : option string;
  pubDate : option string;
  guid : option string;
  guidIsPermaLink : option string;
  source : option string;
  sourceUrl : option string;
  created_at : nat
}.

(** [table = None]: the relation does not exist yet.  [clock] is the
    server's logical time, ticking at every call. *)
Record Db : Type := { table : option (list Row); clock : nat }.

Definition emptyDb : Db := {| table := None; clock := 1 |}.

Inductive Statement : Type :=
| CreateTable | InsertPost | SelectGuid | Ping | CountPosts | LatestPost
| Unknown.

Definition parseStatement (sql : string) : Statement :=
  if String.eqb sql createTableQuery then CreateTable
  else if String.eqb sql insertQuery then InsertPost
  else if String.eqb sql guidQuery then SelectGuid
  else if String.eqb sql pingQuery then Ping
  else if String.eqb sql countQuery then CountPosts
  else if String.eqb sql latestQuery then LatestPost
  else Unknown.

Definition sameGuid (g : string) (r : Row) : bool :=
  match guid r with
  | Some g' => String.eqb g g'
  | None => false
  end.

(** Does a row with this [guid] exist?  NULL equals nothing. *)
Definition guidTaken (g : option string) (rs : list Row) : bool :=
  match g with
  | Some s => existsb (sameGuid s) rs
  | None => false
  end.

(** [INSERT ... ON CONFLICT (guid) DO NOTHING] *)
Definition insertRow (r : Row) (rs : list Row) : list Row :=
  if guidTaken (guid r) rs then rs else rs ++ [r].

(** The rows of the table; none while the relation does not exist. *)
Definition rowsOf (db : Db) : list Row :=
  match table db with Some rs => rs | None => [] end.

Definition commandDone (n : Z) : Outcome :=
  Resolves {| rows := []; rowCount := n |}.

Definition selected (rs : list Value) : Outcome :=
  Resolves {| rows := rs; rowCount := Z.of_nat (List.length rs) |}.

Definition one : Value := VObj [("?column?", VNum 1)].

Definition decimal (n : nat) : string :=
  NilZero.string_of_uint (Nat.to_uint n).

Definition missingTable : Error :=
  {| message := "relation posts does not exist" |}.

Definition bindError : Error :=
  {| message := "bind message supplies the wrong number of parameters" |}.

Definition syntaxError : Error := {| message := "syntax error" |}.

Section Postgres.

(** How the driver turns a JavaScript parameter into a text cell or NULL:
    [null] and [undefined] become NULL, a string is sent as it is, other
    values are serialised. *)
Variable prepareValue : Value -> option string.

Definition rowOf (params : list Value) (now : nat) : option Row :=
  match map prepareValue params with
  | [t; c; d; l; p; g; gp; s; su] =>
      Some {| title := t; creator := c; description := d; link := l;
              pubDate := p; guid := g; guidIsPermaLink := gp; source := s;
              sourceUrl := su; created_at := now |}
  | _ => None
  end.

Definition pgStep (db : Db) (c : Call) : Outcome * Db :=
  let now := clock db in
  let next t := {| table := t; clock := S now |} in
  match c with
  | End => (commandDone 0, next (table db))
  | Query sql params =>
      match parseStatement sql, table db with
      | Unknown, t => (Rejects syntaxError, next t)
      | Ping, t => (selected [one], next t)
      | CreateTable, None => (commandDone 0, next (Some []))
      | CreateTable, Some rs => (commandDone 0, next (Some rs))
      | _, None => (Rejects missingTable, next None)
      | InsertPost, Some rs =>
          match rowOf params now with
          | None => (Rejects bindError, next (Some rs))
          | Some r =>
              (commandDone (if guidTaken (guid r) rs then 0 else 1),
               next (Some (insertRow r rs)))
          end
      | SelectGuid, Some rs =>
          match params with
          | [g] =>
              (selected (if guidTaken (prepareValue g) rs then [one] else []),
               next (Some rs))
          | _ => (Rejects bindError, next (Some rs))
          end
      | CountPosts, Some rs =>
          (selected [VObj [("count", VStr (decimal (List.length rs)))]],
           next (Some rs))
      | LatestPost, Some rs =>
          (selected (match rev rs with
                     | [] => []
                     | r :: _ =>
                         [VObj [("created_at",
                                 VNum (Z.of_nat (created_at r)))]]
                     end),
           next (Some rs))
      end
  end.

(** The database after a history of calls. *)
Definition replay (h : list Call) : Db :=
  fold_left (fun db c => snd (pgStep db c)) h emptyDb.

Definition pgRespond (h : list Call) (c : Call) : Outcome :=
  fst (pgStep (replay h) c).

(** A pool connected to a healthy backend that has served [h] so far. *)
Definition healthyPool (h : list Call) : Pool :=
  {| respond := pgRespond; history := h |}.

Definition storedRows (p : Pool) : list Row := rowsOf (replay (history p)).

End Postgres.

(** Sample instances used to run the model. *)

Definition textOnly (v : Value) : option string :=
  match v with
  | VStr s => Some s
  | _ => None
  end.

Definition parseDecimal (v : Value) : Value :=
  match v with
  | VStr s =>
      match NilZero.uint_of_string s with
      | Some u => VNum (Z.of_nat (Nat.of_uint u))
      | None => VNaN
      end
  | VNum z => VNum z
  | _ => VNaN
  end.

Definition downPool (why : string) : Pool :=
  {| respond := fun _ _ => Rejects {| message := why |}; history := [] |}.

Definition post (g t : string) : Value :=
  VObj [("title", VStr t); ("guid", VStr g); ("link", VStr g)].


(** ** Vocabulary of the statements below *)

Definition resolves (o : Outcome) : bool :=
  match o with Resolves _ => true | Rejects _ => false end.

(** Does pool [p] answer every insert of the batch, one after the other?  A
    batch element whose properties cannot be read fails the batch as well. *)
Fixpoint insertsSucceed (posts : list Value) (p : Pool) : bool :=
  match posts with
  | [] => true
  | post :: rest =>
      match insertParams post with
      | Throw _ => false
      | Return params =>
          resolves (answer p (Query insertQuery params))
          && insertsSucceed rest (record (Query insertQuery params) p)
      end
  end.

(** A backend completes the batch: it creates the table and takes every
    insert. *)
Definition batchSucceeds (posts : list Value) (p : Pool) : bool :=
  resolves (answer p (Query createTableQuery []))
  && insertsSucceed posts (record (Query createTableQuery []) p).


(** Sample registries and batches used to run the model. *)

Definition sampleBatch : list Value :=
  [post "g1" "first"; post "g2" "second"; post "g1" "third"].

(** The registry of the source with the second backend unreachable. *)
Definition sampleWorld : World :=
  allPools (healthyPool textOnly []) (downPool "ECONNREFUSED")
           (healthyPool textOnly []).

(** The registry of the source with every backend unreachable. *)
Definition deadWorld : World :=
  allPools (downPool "ECONNREFUSED") (downPool "ETIMEDOUT")
           (downPool "ENOTFOUND").


(** The existence query on pool [p] succeeds and finds a match. *)
Definition finds (g : Value) (p : Pool) : bool :=
  match answer p (Query guidQuery [g]) with
  | Resolves r => (0 <? rowCount r)%Z
  | Rejects _ => false
  end.

(** The existence query on pool [p] succeeds and finds nothing. *)
Definition misses (g : Value) (p : Pool) : bool :=
  match answer p (Query guidQuery [g]) with
  | Resolves r => negb (0 <? rowCount r)%Z
  | Rejects _ => false
  end.

(** The existence query on pool [p] throws. *)
Definition failsOn (c : Call) (p : Pool) : bool := negb (resolves (answer p c)).

(** The entry after its pool has received call [c]. *)
Definition asked (c : Call) (e : Entry) : Entry :=
  {| name := name e; pool := record c (pool e) |}.

Definition consulted (g : Value) (e : Entry) : Entry :=
  asked (Query guidQuery [g]) e.


(** The calls a pool has served once the post [(g, t)] has been written. *)
Definition written (g t : string) : list Call :=
  [Query createTableQuery [];
   Query insertQuery
     [VStr t; VUndefined; VUndefined; VStr g; VUndefined; VStr g;
      VUndefined; VUndefined; VUndefined]].

Definition holder (n g : string) : Entry :=
  {| name := n; pool := healthyPool textOnly (written g "first") |}.

Definition unreachable (n : string) : Entry :=
  {| name := n; pool := downPool "ECONNREFUSED" |}.


(** ** Results as the caller sees them *)

Definition errorField (e : option string) : list (string * Value) :=
  match e with
  | Some m => [("error", VStr m)]
  | None => []
  end.

(** [{ name, connected: true }] or [{ name, connected: false, error }] *)
Definition probeValue (r : ProbeResult) : Value :=
  VObj ([("name", VStr (pr_name r)); ("connected", VBool (connected r))]
          ++ errorField (pr_error r)).

Definition errorValue (e : Error) : Value :=
  VObj [("message", VStr (message e))].

(** An entry of the array [Promise.allSettled] resolves to:
    [{ status: 'fulfilled', value }] or [{ status: 'rejected', reason }]. *)
Definition settledValue {A} (toValue : A -> Value) (r : Settled A) : Value :=
  match r with
  | Fulfilled v => VObj [("status", VStr "fulfilled"); ("value", toValue v)]
  | Rejected e => VObj [("status", VStr "rejected"); ("reason", errorValue e)]
  end.

Definition isString (v : Value) : bool :=
  match v with VStr _ => true | _ => false end.

Definition isBoolean (v : Value) : bool :=
  match v with VBool _ => true | _ => false end.

Definition isUndefined (v : Value) : bool :=
  match v with VUndefined => true | _ => false end.

(** The record shape [{ name, connected: bool, error? }]. *)
Definition isProbeRecord (v : Value) : bool :=
  match v with
  | VObj props =>
      isString (lookup "name" props)
      && isBoolean (lookup "connected" props)
      && (isString (lookup "error" props) || isUndefined (lookup "error" props))
  | _ => false
  end.

(** What the ping of pool [p] makes of its probe entry. *)
Definition probeOf (n : string) (p : Pool) : ProbeResult :=
  match answer p (Query pingQuery []) with
  | Resolves _ => {| pr_name := n; connected := true; pr_error := None |}
  | Rejects e =>
      {| pr_name := n; connected := false; pr_error := Some (message e) |}
  end.


(** Why the statistics of pool [p] cannot be taken, if they cannot: the
    count query throws, or the latest-timestamp query after it throws, or
    the count result has no first row to read [count] from. *)
Definition statsFailure (p : Pool) : option Error :=
  match answer p (Query countQuery []) with
  | Rejects e => Some e
  | Resolves countResult =>
      match answer (record (Query countQuery []) p) (Query latestQuery []) with
      | Rejects e => Some e
      | Resolves _ =>
          match getProp (firstRow countResult) "count" with
          | Throw e => Some e
          | Return _ => None
          end
      end
  end.

(** A registry holding data on its first and last backend, the second one
    being unreachable. *)
Definition statsWorld : World :=
  [holder "Aiven PostgreSQL" "g1"; unreachable "CockroachDB";
   holder "Neon" "g2"].


(** ** The table a batch leaves behind *)

Definition isNullish (v : Value) : bool :=
  match v with VUndefined | VNull => true | _ => false end.

(** The statement [savePosts] issues for one post whose properties can be
    read. *)
Definition insertCall (post : Value) : Call :=
  Query insertQuery (map (getPropOpt post) postColumns).

Section Rows.

Variable prepareValue : Value -> option string.

(** The [guid] cell of a post. *)
Definition guidOf (post : Value) : option string :=
  prepareValue (getPropOpt post "guid").

(** The row an insert of [post] at time [now] proposes. *)
Definition rowAt (post : Value) (now : nat) : Row :=
  {| title := prepareValue (getPropOpt post "title");
     creator := prepareValue (getPropOpt post "creator");
     description := prepareValue (getPropOpt post "description");
     link := prepareValue (getPropOpt post "link");
     pubDate := prepareValue (getPropOpt post "pubDate");
     guid := guidOf post;
     guidIsPermaLink := prepareValue (getPropOpt post "guidIsPermaLink");
     source := prepareValue (getPropOpt post "source");
     sourceUrl := prepareValue (getPropOpt post "sourceUrl");
     created_at := now |}.

(** The rows after the inserts of a batch, the first one at time [now]. *)
Fixpoint insertPosts (posts : list Value) (now : nat) (rs : list Row)
  : list Row :=
  match posts with
  | [] => rs
  | post :: rest => insertPosts rest (S now) (insertRow (rowAt post now) rs)
  end.

(** The rows with a given [guid]. *)
Definition rowsWithGuid (g : string) (rs : list Row) : list Row :=
  filter (sameGuid g) rs.

End Rows.

(** A single healthy backend, as the only entry of the registry. *)
Definition single (prepareValue : Value -> option string) (n : string)
           (h : list Call) : World :=
  [{| name := n; pool := healthyPool prepareValue h |}].

Definition rowCounts (prepareValue : Value -> option string) (w : World)
  : list nat :=
  map (fun e => List.length (storedRows prepareValue (pool e))) w.


(** ** Vocabulary of the further properties *)

(** The statements a complete run of the writer sends to one backend. *)
Definition batchCalls (posts : list Value) : list Call :=
  Query createTableQuery [] :: map insertCall posts.

(** The pool after it has received the calls [sent], in this order. *)
Definition afterCalls (sent : list Call) (p : Pool) : Pool :=
  {| respond := respond p; history := history p ++ sent |}.

(** The calls [sent] went to pool [p] one after the other, and each of them
    but the last was answered: a call that is rejected is the last one. *)
Inductive answeredButLast : Pool -> list Call -> Prop :=
| abl_none (p : Pool) : answeredButLast p []
| abl_last (p : Pool) (c : Call) : answeredButLast p [c]
| abl_next (p : Pool) (c : Call) (sent : list Call) :
    resolves (answer p c) = true ->
    answeredButLast (record c p) sent ->
    answeredButLast p (c :: sent).


(** The TypeError reading the first column of a batch element that is
    [null] or [undefined] throws. *)
Definition unreadable (v : Value) : Error :=
  typeError (match v with VNull => "null" | _ => "undefined" end) "title".


(** The calls that read and never write: the existence, ping, count and
    latest-timestamp queries, and the release of the pool. *)
Definition readOnly (c : Call) : bool :=
  match c with
  | End => true
  | Query sql _ =>
      match parseStatement sql with
      | SelectGuid | Ping | CountPosts | LatestPost => true
      | _ => false
      end
  end.

(** The calls [getAllDatabaseStats] sends to pool [p]: the count query, and
    the latest-timestamp query when the count was answered. *)
Definition statsCalls (p : Pool) : list Call :=
  if resolves (answer p (Query countQuery []))
  then [Query countQuery []; Query latestQuery []]
  else [Query countQuery []].

Definition withPool (e : Entry) (p : Pool) : Entry :=
  {| name := name e; pool := p |}.


(** Entry [e'] is entry [e] later on, and if [e] holds a healthy backend
    then so does [e'], with the same stored rows. *)
Definition keepsRows (prepareValue : Value -> option string) (e e' : Entry)
  : Prop :=
  name e' = name e
  /\ forall h, pool e = healthyPool prepareValue h ->
               exists sent,
                 pool e' = healthyPool prepareValue (h ++ sent)
                 /\ storedRows prepareValue (pool e')
                    = storedRows prepareValue (pool e).


(** Entry [e'] is entry [e] later on, and if [e] holds a healthy backend
    then [e'] holds it with the rows it had, followed by at most [n] new
    ones. *)
Definition appendsAtMost (prepareValue : Value -> option string) (n : nat)
           (e e' : Entry) : Prop :=
  name e' = name e
  /\ forall h, pool e = healthyPool prepareValue h ->
               exists sent added,
                 pool e' = healthyPool prepareValue (h ++ sent)
                 /\ storedRows prepareValue (pool e')
                    = storedRows prepareValue (pool e) ++ added
                 /\ List.length added <= n.

(** * Properties *)

(** ** The fan-out *)

Section FanOut.

Context {A : Type} (task : string -> M Pool A).

(** The joined array holds the settlement of every callback, in registry
    order. *)
Lemma allSettled_results (w : World) :
  fst (allSettled task w)
  = map (fun e => settle (fst (task (name e) (pool e)))) w.
Proof.
  induction w as [|e rest IH]; simpl; [reflexivity|].
  unfold runOn. destruct (task (name e) (pool e)) as [c p].
  destruct (allSettled task rest) as [results rest']. simpl in *.
  now rewrite IH.
Qed.

(** Every entry keeps its name and holds the pool its callback left. *)
Lemma allSettled_world (w : World) :
  snd (allSettled task w) = map (fun e => snd (runOn task e)) w.
Proof.
  induction w as [|e rest IH]; simpl; [reflexivity|].
  destruct (runOn task e) as [c e'].
  destruct (allSettled task rest) as [results rest']. simpl in *.
  now rewrite IH.
Qed.

Lemma allSettled_length (w : World) :
  List.length (fst (allSettled task w)) = List.length w.
Proof. rewrite allSettled_results. apply length_map. Qed.

(** A callback that cannot throw yields fulfilled settlements only. *)
Lemma allSettled_fulfilled (w : World) :
  (forall n p, exists a, fst (task n p) = Return a) ->
  Forall (fun r => isFulfilled r = true) (fst (allSettled task w)).
Proof.
  intros Hret. rewrite allSettled_results. apply Forall_map, Forall_forall.
  intros e _. destruct (Hret (name e) (pool e)) as [a ->]. reflexivity.
Qed.

End FanOut.

(** A [try] whose handler returns cannot throw. *)
Lemma tryCatch_returns {S A} (body : M S A) (handler : Error -> M S A) (s : S) :
  (forall e s', exists a, fst (handler e s') = Return a) ->
  exists a, fst (tryCatch body handler s) = Return a.
Proof.
  intros Hh. unfold tryCatch. destruct (body s) as [[a|e] s'].
  - now exists a.
  - apply Hh.
Qed.

Lemma saveTask_returns posts n p :
  exists a, fst (saveTask posts n p) = Return a.
Proof. apply tryCatch_returns. intros e s'. eexists. reflexivity. Qed.

Lemma testTask_returns n p : exists a, fst (testTask n p) = Return a.
Proof. apply tryCatch_returns. intros e s'. eexists. reflexivity. Qed.

Lemma statsTask_returns parseInt n p :
  exists a, fst (statsTask parseInt n p) = Return a.
Proof. apply tryCatch_returns. intros e s'. eexists. reflexivity. Qed.

Lemma closeTask_returns n p : exists a, fst (closeTask n p) = Return a.
Proof. apply tryCatch_returns. intros e s'. eexists. reflexivity. Qed.


(** ** savePosts *)

Lemma insertAll_succeeds (posts : list Value) (p : Pool) :
  match fst (insertAll posts p) with
  | Return _ => insertsSucceed posts p = true
  | Throw _ => insertsSucceed posts p = false
  end.
Proof.
  revert p. induction posts as [|x rest IH]; intros p; simpl; [reflexivity|].
  unfold bind, lift. destruct (insertParams x) as [params|e]; simpl; [|reflexivity].
  unfold query, call. destruct (answer p (Query insertQuery params)); simpl.
  - apply IH.
  - reflexivity.
Qed.

(** The outcome a backend reports carries its name and tells whether it
    completed the batch. *)
Lemma saveTask_outcome (posts : list Value) (n : string) (p : Pool) :
  exists v, fst (saveTask posts n p) = Return v
            /\ bo_name v = n /\ success v = batchSucceeds posts p.
Proof.
  unfold saveTask, tryCatch, bind, query, call, batchSucceeds.
  destruct (answer p (Query createTableQuery [])); simpl.
  - pose proof (insertAll_succeeds posts (record (Query createTableQuery []) p)) as H.
    destruct (insertAll posts (record (Query createTableQuery []) p)) as [[u|e] p'];
      simpl in *; eexists; (split; [reflexivity|]); simpl; auto.
  - eexists. split; [reflexivity|]. simpl. auto.
Qed.

Lemma successCount_counts (posts : list Value) (w : World) :
  successCount (fst (savePromises posts w))
  = List.length (filter (fun e => batchSucceeds posts (pool e)) w).
Proof.
  unfold successCount, savePromises. rewrite allSettled_results.
  induction w as [|e rest IH]; simpl; [reflexivity|].
  destruct (saveTask_outcome posts (name e) (pool e)) as (v & -> & _ & Hs).
  simpl. rewrite Hs.
  destruct (batchSucceeds posts (pool e)); simpl; now rewrite IH.
Qed.

Lemma filter_nil_iff {A} (f : A -> bool) (l : list A) :
  List.length (filter f l) = 0 <-> Forall (fun x => f x = false) l.
Proof.
  induction l as [|x l IH]; simpl.
  - split; auto.
  - destruct (f x) eqn:E; simpl.
    + split; [discriminate|]. intros H. inversion H; congruence.
    + rewrite IH. split; intros H; [now constructor | now inversion H].
Qed.

Lemma savePosts_batch (posts : list Value) (w : World) :
  posts <> [] ->
  fst (savePosts (VArr posts) w)
  = if (List.length (filter (fun e => batchSucceeds posts (pool e)) w) =? 0)%nat
    then Throw allFailed else Return tt.
Proof.
  intros Hne. unfold savePosts. simpl.
  destruct posts as [|x rest]; [congruence|]. simpl.
  pose proof (successCount_counts (x :: rest) w) as Hc.
  destruct (savePromises (x :: rest) w) as [results w']. simpl in Hc.
  rewrite Hc. now destruct (_ =? 0)%nat.
Qed.

(** C1. For a non-empty batch, [savePosts] throws exactly when every backend
    failed its batch, and the error is then the aggregate "all backends
    failed" error; it returns normally exactly when at least one backend
    completed its batch, however many others failed.  The joined outcome
    list names every backend in registry order and marks it with its own
    success. *)
Theorem savePosts_raises_iff_all_backends_failed
  (posts : list Value) (w : World) :
  posts <> [] ->
  (fst (savePosts (VArr posts) w) = Throw allFailed
   <-> Forall (fun e => batchSucceeds posts (pool e) = false) w)
  /\ (fst (savePosts (VArr posts) w) = Return tt
      <-> Exists (fun e => batchSucceeds posts (pool e) = true) w)
  /\ Forall2 (fun e r => exists v, r = Fulfilled v /\ bo_name v = name e
                                   /\ success v = batchSucceeds posts (pool e))
       w (fst (savePromises posts w)).
Proof.
  intros Hne. rewrite (savePosts_batch posts w Hne).
  pose proof (filter_nil_iff (fun e => batchSucceeds posts (pool e)) w) as Hf.
  repeat split.
  - intros H. apply Hf. destruct (_ =? 0)%nat eqn:E; [|discriminate].
    now apply Nat.eqb_eq.
  - intros H. apply Hf in H. now rewrite H.
  - intros H. destruct (_ =? 0)%nat eqn:E; [discriminate|].
    apply Nat.eqb_neq in E. apply Exists_exists.
    destruct (filter _ w) as [|e l] eqn:Ef; [now elim E|].
    assert (Hin : In e (filter (fun e => batchSucceeds posts (pool e)) w))
      by (rewrite Ef; now left).
    apply filter_In in Hin. now exists e.
  - intros H. apply Exists_exists in H. destruct H as (e & Hin & He).
    destruct (_ =? 0)%nat eqn:E; [|reflexivity].
    apply Nat.eqb_eq, Hf in E. rewrite Forall_forall in E.
    specialize (E e Hin). congruence.
  - unfold savePromises. rewrite allSettled_results.
    induction w as [|e rest IH]; simpl; constructor.
    + destruct (saveTask_outcome posts (name e) (pool e)) as (v & -> & Hn & Hs).
      now exists v.
    + apply IH. apply filter_nil_iff.
Qed.

Lemma savePosts_raises_iff_all_backends_failed_witness :
  sampleBatch <> []
  /\ ((fst (savePosts (VArr sampleBatch) sampleWorld) = Throw allFailed
       <-> Forall (fun e => batchSucceeds sampleBatch (pool e) = false)
             sampleWorld)
      /\ (fst (savePosts (VArr sampleBatch) sampleWorld) = Return tt
          <-> Exists (fun e => batchSucceeds sampleBatch (pool e) = true)
                sampleWorld)
      /\ Forall2 (fun e r => exists v, r = Fulfilled v /\ bo_name v = name e
                             /\ success v = batchSucceeds sampleBatch (pool e))
           sampleWorld (fst (savePromises sampleBatch sampleWorld))).
Proof.
  split; [discriminate|].
  apply (savePosts_raises_iff_all_backends_failed sampleBatch sampleWorld).
  discriminate.
Defined.

(** One backend of three completing the batch is a success for the caller;
    none completing it is the aggregate failure. *)
Example savePosts_one_of_three :
  fst (savePosts (VArr sampleBatch)
         (allPools (downPool "ECONNREFUSED") (healthyPool textOnly [])
                   (downPool "ETIMEDOUT"))) = Return tt.
Proof. reflexivity. Qed.

Example savePosts_none_of_three :
  fst (savePosts (VArr sampleBatch) deadWorld) = Throw allFailed.
Proof. reflexivity. Qed.

(** C8. An empty batch is a no-op: the call returns normally and the
    registry, with the history of every pool, is left as it was, so no
    statement reached any backend. *)
Theorem savePosts_empty_batch (w : World) :
  savePosts (VArr []) w = (Return tt, w).
Proof. reflexivity. Qed.

(** C9. An argument that is not an array is a no-op as well: the call
    returns normally and no pool receives a statement. *)
Theorem savePosts_not_an_array (posts : Value) (w : World) :
  isArray posts = false ->
  savePosts posts w = (Return tt, w).
Proof. intros H. unfold savePosts. now rewrite H. Qed.

Lemma savePosts_not_an_array_witness :
  isArray VNull = false
  /\ savePosts VNull sampleWorld = (Return tt, sampleWorld)
  /\ savePosts VUndefined sampleWorld = (Return tt, sampleWorld)
  /\ savePosts (VStr "post") sampleWorld = (Return tt, sampleWorld)
  /\ savePosts (post "g1" "first") sampleWorld = (Return tt, sampleWorld).
Proof.
  split; [reflexivity|].
  split; [|split; [|split]]; apply savePosts_not_an_array; reflexivity.
Defined.

(** ** Every settlement is fulfilled *)

Lemma fulfilled_map_ext {A B} (f g : Settled A -> B) (l : list (Settled A)) :
  Forall (fun r => isFulfilled r = true) l ->
  (forall v, f (Fulfilled v) = g (Fulfilled v)) ->
  map f l = map g l.
Proof.
  intros Hl Hfg. induction Hl as [|r l Hr _ IH]; simpl; [reflexivity|].
  destruct r; [|discriminate]. now rewrite Hfg, IH.
Qed.

Lemma fulfilled_filter_ext {A} (f g : Settled A -> bool) (l : list (Settled A)) :
  Forall (fun r => isFulfilled r = true) l ->
  (forall v, f (Fulfilled v) = g (Fulfilled v)) ->
  filter f l = filter g l.
Proof.
  intros Hl Hfg. induction Hl as [|r l Hr _ IH]; simpl; [reflexivity|].
  destruct r; [|discriminate]. now rewrite Hfg, IH.
Qed.

(** C10. In the four fan-outs every callback catches what its backend
    throws, so every entry of the joined array is fulfilled.  The branches
    for a rejected entry are dead: whatever the filters of [savePosts] and
    [testAllConnections] answered for a rejected entry, and whatever
    [getAllDatabaseStats] put in place of [result.reason], the counts and the
    returned list would be the same. *)
Theorem fan_out_settlements_are_fulfilled
  (parseInt : Value -> Value) (posts : list Value) (w : World) :
  Forall (fun r => isFulfilled r = true) (fst (savePromises posts w))
  /\ Forall (fun r => isFulfilled r = true) (fst (testPromises w))
  /\ Forall (fun r => isFulfilled r = true) (fst (statsPromises parseInt w))
  /\ Forall (fun r => isFulfilled r = true) (fst (closePromises w))
  /\ (forall onRejected : Error -> bool,
        successCount (fst (savePromises posts w))
        = List.length
            (filter (fun r => match r with
                              | Fulfilled v => success v
                              | Rejected e => onRejected e
                              end) (fst (savePromises posts w))))
  /\ (forall onRejected : Error -> bool,
        connectedCount (fst (testPromises w))
        = List.length
            (filter (fun r => match r with
                              | Fulfilled v => connected v
                              | Rejected e => onRejected e
                              end) (fst (testPromises w))))
  /\ (forall onRejected : Error -> StatsSnapshot + Error,
        fst (getAllDatabaseStats parseInt w)
        = Return (map (fun r => match r with
                                | Fulfilled v => inl v
                                | Rejected e => onRejected e
                                end) (fst (statsPromises parseInt w)))).
Proof.
  assert (Hs : Forall (fun r => isFulfilled r = true) (fst (savePromises posts w)))
    by (apply allSettled_fulfilled, saveTask_returns).
  assert (Ht : Forall (fun r => isFulfilled r = true) (fst (testPromises w)))
    by (apply allSettled_fulfilled, testTask_returns).
  assert (Hq : Forall (fun r => isFulfilled r = true)
                 (fst (statsPromises parseInt w)))
    by (apply allSettled_fulfilled, statsTask_returns).
  repeat split; try assumption.
  - apply allSettled_fulfilled, closeTask_returns.
  - intros onRejected. unfold successCount. f_equal.
    now apply fulfilled_filter_ext.
  - intros onRejected. unfold connectedCount. f_equal.
    now apply fulfilled_filter_ext.
  - intros onRejected. unfold getAllDatabaseStats.
    destruct (statsPromises parseInt w) as [results w'] eqn:E. simpl in *.
    f_equal. now apply fulfilled_map_ext.
Qed.

(** ** isGuidExists *)

Lemma finds_or_not (g : Value) (p : Pool) :
  finds g p = false <->
  misses g p = true \/ failsOn (Query guidQuery [g]) p = true.
Proof.
  unfold finds, misses, failsOn, resolves.
  destruct (answer p (Query guidQuery [g])) as [r|e]; simpl.
  - destruct (0 <? rowCount r)%Z; simpl; intuition discriminate.
  - intuition.
Qed.

Lemma findGuid_runOn (g : Value) (e : Entry) :
  runOn (findGuid g) e = (Return (finds g (pool e)), consulted g e).
Proof.
  unfold runOn, findGuid, tryCatch, bind, query, call, finds, consulted, asked.
  destruct (answer (pool e) (Query guidQuery [g])); reflexivity.
Qed.

Lemma scanFallbacks_none (g : Value) (fallbacks : list Entry) :
  Forall (fun e => finds g (pool e) = false) fallbacks ->
  scanFallbacks g fallbacks = (Return false, map (consulted g) fallbacks).
Proof.
  induction 1 as [|e rest He _ IH]; simpl; [reflexivity|].
  now rewrite findGuid_runOn, He, IH.
Qed.

Lemma scanFallbacks_first (g : Value) (skipped : list Entry) (hit : Entry)
      (rest : list Entry) :
  Forall (fun e => finds g (pool e) = false) skipped ->
  finds g (pool hit) = true ->
  scanFallbacks g (skipped ++ hit :: rest)
  = (Return true, map (consulted g) skipped ++ consulted g hit :: rest).
Proof.
  intros Hs Hh. induction Hs as [|e l He _ IH]; simpl.
  - now rewrite findGuid_runOn, Hh.
  - now rewrite findGuid_runOn, He, IH.
Qed.

(** C2. [isGuidExists] asks the primary first.  A match there returns true
    at once and no fallback receives a query.  When the primary finds
    nothing or throws, the fallbacks are asked in registry order: the first
    one that finds a match makes the call return true, the fallbacks before
    it, which found nothing or threw, have each been asked once, and those
    after it are not asked.  When no backend finds a match, every backend
    has been asked once and the call returns false. *)
Theorem isGuidExists_primary_then_fallbacks
  (g : Value) (primary : Entry) (fallbacks : list Entry) :
  (finds g (pool primary) = true ->
   isGuidExists g (primary :: fallbacks)
   = (Return true, consulted g primary :: fallbacks))
  /\ (misses g (pool primary) = true
      \/ failsOn (Query guidQuery [g]) (pool primary) = true ->
      forall skipped hit rest,
        fallbacks = skipped ++ hit :: rest ->
        Forall (fun e => misses g (pool e) = true
                         \/ failsOn (Query guidQuery [g]) (pool e) = true)
          skipped ->
        finds g (pool hit) = true ->
        isGuidExists g (primary :: fallbacks)
        = (Return true,
           consulted g primary :: map (consulted g) skipped
             ++ consulted g hit :: rest))
  /\ (Forall (fun e => finds g (pool e) = false) (primary :: fallbacks) ->
      isGuidExists g (primary :: fallbacks)
      = (Return false, map (consulted g) (primary :: fallbacks))).
Proof.
  repeat split.
  - intros Hp. unfold isGuidExists. now rewrite findGuid_runOn, Hp.
  - intros Hp skipped hit rest -> Hs Hh. apply finds_or_not in Hp.
    unfold isGuidExists. rewrite findGuid_runOn, Hp.
    rewrite scanFallbacks_first; auto.
    eapply Forall_impl; [|exact Hs]. intros e He. now apply finds_or_not.
  - intros H. inversion H as [|? ? Hp Hf]; subst.
    unfold isGuidExists. rewrite findGuid_runOn, Hp.
    now rewrite scanFallbacks_none.
Qed.

Lemma isGuidExists_primary_then_fallbacks_witness :
  (finds (VStr "g1") (pool (holder "Aiven PostgreSQL" "g1")) = true
   /\ isGuidExists (VStr "g1")
        (holder "Aiven PostgreSQL" "g1"
         :: [holder "CockroachDB" "g1"; holder "Neon" "g1"])
      = (Return true,
         consulted (VStr "g1") (holder "Aiven PostgreSQL" "g1")
         :: [holder "CockroachDB" "g1"; holder "Neon" "g1"]))
  /\ (failsOn (Query guidQuery [VStr "g1"])
        (pool (unreachable "Aiven PostgreSQL")) = true
      /\ isGuidExists (VStr "g1")
           (unreachable "Aiven PostgreSQL"
            :: [holder "CockroachDB" "g2"] ++ holder "Neon" "g1" :: [])
         = (Return true,
            consulted (VStr "g1") (unreachable "Aiven PostgreSQL")
            :: map (consulted (VStr "g1")) [holder "CockroachDB" "g2"]
               ++ consulted (VStr "g1") (holder "Neon" "g1") :: []))
  /\ (Forall (fun e => finds (VStr "g3") (pool e) = false)
        (holder "Aiven PostgreSQL" "g1"
         :: [unreachable "CockroachDB"; holder "Neon" "g2"])
      /\ isGuidExists (VStr "g3")
           (holder "Aiven PostgreSQL" "g1"
            :: [unreachable "CockroachDB"; holder "Neon" "g2"])
         = (Return false,
            map (consulted (VStr "g3"))
              (holder "Aiven PostgreSQL" "g1"
               :: [unreachable "CockroachDB"; holder "Neon" "g2"]))).
Proof.
  split; [|split].
  - split; [reflexivity|].
    apply (proj1 (isGuidExists_primary_then_fallbacks (VStr "g1")
                    (holder "Aiven PostgreSQL" "g1")
                    [holder "CockroachDB" "g1"; holder "Neon" "g1"])).
    reflexivity.
  - split; [reflexivity|].
    apply (proj1 (proj2 (isGuidExists_primary_then_fallbacks (VStr "g1")
                           (unreachable "Aiven PostgreSQL")
                           ([holder "CockroachDB" "g2"]
                              ++ holder "Neon" "g1" :: [])))).
    + right. reflexivity.
    + reflexivity.
    + constructor; [left; reflexivity | constructor].
    + reflexivity.
  - assert (H : Forall (fun e => finds (VStr "g3") (pool e) = false)
                  (holder "Aiven PostgreSQL" "g1"
                   :: [unreachable "CockroachDB"; holder "Neon" "g2"]))
      by (repeat constructor).
    split; [exact H|].
    apply (proj2 (proj2 (isGuidExists_primary_then_fallbacks (VStr "g3")
                           (holder "Aiven PostgreSQL" "g1")
                           [unreachable "CockroachDB"; holder "Neon" "g2"]))).
    exact H.
Defined.

(** A guid held by a fallback only is found, with the primary unreachable
    or lacking it; a guid no reachable backend holds is not. *)
Example isGuidExists_fallback_only :
  fst (isGuidExists (VStr "g1")
         [unreachable "Aiven PostgreSQL"; holder "CockroachDB" "g2";
          holder "Neon" "g1"]) = Return true
  /\ fst (isGuidExists (VStr "g1")
            [holder "Aiven PostgreSQL" "g2"; unreachable "CockroachDB";
             holder "Neon" "g1"]) = Return true.
Proof. split; reflexivity. Qed.

Example isGuidExists_true_negative :
  fst (isGuidExists (VStr "g3")
         [holder "Aiven PostgreSQL" "g1"; holder "CockroachDB" "g2";
          holder "Neon" "g1"]) = Return false.
Proof. reflexivity. Qed.

(** ** testAllConnections *)

Lemma testTask_probe (n : string) (p : Pool) :
  fst (testTask n p) = Return (probeOf n p).
Proof.
  unfold testTask, tryCatch, bind, query, call, probeOf.
  destruct (answer p (Query pingQuery [])); reflexivity.
Qed.

Lemma testAllConnections_results (w : World) :
  fst (testAllConnections w)
  = Return (map (fun e => Fulfilled (probeOf (name e) (pool e))) w).
Proof.
  unfold testAllConnections, testPromises.
  pose proof (allSettled_results testTask w) as H.
  destruct (allSettled testTask w) as [results w']. simpl in *. rewrite H.
  f_equal. apply map_ext. intros e. now rewrite testTask_probe.
Qed.

(** C3.  The claim asks for an array of records [{ name, connected,
    error? }]; the code returns the array of [Promise.allSettled] as it is.
    With the registry of the source, one backend unreachable, the call
    returns three entries, and none of them is such a record: each is a
    settlement object [{ status, value }], so its [connected] property is
    undefined, for the unreachable backend too.  [getAllDatabaseStats] maps
    the same kind of array to its values before returning it;
    [testAllConnections] does not. *)
Lemma testAllConnections_entries_are_not_probe_records :
  exists results,
    fst (testAllConnections sampleWorld) = Return results
    /\ List.length results = 3
    /\ Forall (fun r => isProbeRecord (settledValue probeValue r) = false
                        /\ getPropOpt (settledValue probeValue r) "connected"
                           = VUndefined) results.
Proof.
  eexists. split; [reflexivity|]. split; [reflexivity|].
  repeat constructor.
Qed.

(** What [testAllConnections] returns, for every registry: it never throws,
    and the joined settlement array has one entry per registered backend, in
    registry order, each of the form [{ status: 'fulfilled', value }] where
    [value] is the record [{ name, connected, error? }] naming the backend;
    [connected] is true when the backend answered the ping, and false, with
    the message of the error, when the ping threw.  The records the caller
    is promised are there, one level down. *)
Theorem testAllConnections_returns_settlements (w : World) :
  exists results,
    fst (testAllConnections w) = Return results
    /\ Forall2 (fun e r =>
                  exists v,
                    r = Fulfilled v
                    /\ settledValue probeValue r
                       = VObj [("status", VStr "fulfilled");
                               ("value", probeValue v)]
                    /\ isProbeRecord (probeValue v) = true
                    /\ pr_name v = name e
                    /\ connected v = resolves (answer (pool e) (Query pingQuery []))
                    /\ pr_error v
                       = match answer (pool e) (Query pingQuery []) with
                         | Resolves _ => None
                         | Rejects err => Some (message err)
                         end) w results.
Proof.
  eexists. split; [apply testAllConnections_results|].
  induction w as [|e rest IH]; simpl; constructor; [|exact IH].
  exists (probeOf (name e) (pool e)). unfold probeOf.
  destruct (answer (pool e) (Query pingQuery [])); simpl; repeat split.
Qed.

(** One backend of three failing its ping: three entries, exactly one whose
    value has [connected: false]. *)
Example testAllConnections_one_down :
  fst (testAllConnections sampleWorld)
  = Return [Fulfilled {| pr_name := "Aiven PostgreSQL"; connected := true;
                         pr_error := None |};
            Fulfilled {| pr_name := "CockroachDB"; connected := false;
                         pr_error := Some "ECONNREFUSED" |};
            Fulfilled {| pr_name := "Neon"; connected := true;
                         pr_error := None |}].
Proof. reflexivity. Qed.

(** ** getAllDatabaseStats *)

Section StatsProperties.

Variable parseInt : Value -> Value.

Lemma statsTask_snapshot (n : string) (p : Pool) :
  exists s,
    fst (statsTask parseInt n p) = Return s
    /\ st_name s = n
    /\ (forall err, statsFailure p = Some err -> s = errorSnapshot n err)
    /\ (statsFailure p = None ->
        exists countResult latestResult count,
          answer p (Query countQuery []) = Resolves countResult
          /\ answer (record (Query countQuery []) p) (Query latestQuery [])
             = Resolves latestResult
          /\ getProp (firstRow countResult) "count" = Return count
          /\ s = {| st_name := n;
                    totalPosts := parseInt count;
                    latestPost :=
                      orElse (getPropOpt (firstRow latestResult) "created_at")
                             VNull;
                    status := "healthy";
                    st_error := None |}).
Proof.
  unfold statsTask, statsFailure, tryCatch, bind, lift, query, call.
  destruct (answer p (Query countQuery [])) as [countResult|e]; simpl.
  - destruct (answer (record (Query countQuery []) p) (Query latestQuery []))
      as [latestResult|e]; simpl.
    + destruct (getProp (firstRow countResult) "count") as [count|e] eqn:Ec;
        simpl; eexists; (split; [reflexivity|]); simpl;
        (split; [reflexivity|]); split; try congruence.
      intros _. now exists countResult, latestResult, count.
    + eexists. split; [reflexivity|]. simpl. split; [reflexivity|].
      split; congruence.
  - eexists. split; [reflexivity|]. simpl. split; [reflexivity|].
    split; congruence.
Qed.

Lemma getAllDatabaseStats_results (w : World) :
  fst (getAllDatabaseStats parseInt w)
  = Return (map (fun e => match fst (statsTask parseInt (name e) (pool e)) with
                          | Return s => inl s
                          | Throw err => inr err
                          end) w).
Proof.
  unfold getAllDatabaseStats, statsPromises.
  pose proof (allSettled_results (statsTask parseInt) w) as H.
  destruct (allSettled (statsTask parseInt) w) as [results w']. simpl in *.
  rewrite H, map_map. f_equal. apply map_ext. intros e.
  now destruct (fst (statsTask parseInt (name e) (pool e))).
Qed.

(** C7. [getAllDatabaseStats] returns one snapshot per registered backend,
    in registry order, each named after its backend and decided by that
    backend's own answers.  A backend whose statistics cannot be taken
    gets the sentinel [{ totalPosts: -1, latestPost: null, status: "error",
    error }] with the message of its error; every other backend gets a
    healthy snapshot with the parsed count and its latest timestamp. *)
Theorem getAllDatabaseStats_one_snapshot_per_backend (w : World) :
  exists snapshots,
    fst (getAllDatabaseStats parseInt w) = Return (map inl snapshots)
    /\ Forall2
         (fun e s =>
            st_name s = name e
            /\ (forall err, statsFailure (pool e) = Some err ->
                            s = errorSnapshot (name e) err
                            /\ totalPosts s = VNum (-1)
                            /\ latestPost s = VNull
                            /\ status s = "error"
                            /\ st_error s = Some (message err))
            /\ (statsFailure (pool e) = None ->
                status s = "healthy" /\ st_error s = None
                /\ exists countResult latestResult count,
                    answer (pool e) (Query countQuery [])
                    = Resolves countResult
                    /\ answer (record (Query countQuery []) (pool e))
                              (Query latestQuery [])
                       = Resolves latestResult
                    /\ getProp (firstRow countResult) "count" = Return count
                    /\ totalPosts s = parseInt count
                    /\ latestPost s
                       = orElse (getPropOpt (firstRow latestResult)
                                            "created_at") VNull))
         w snapshots.
Proof.
  rewrite getAllDatabaseStats_results.
  induction w as [|e rest (snapshots & Hret & Hall)].
  - exists []. split; [reflexivity | constructor].
  - destruct (statsTask_snapshot (name e) (pool e)) as (s & Hs & Hn & Hf & Hh).
    exists (s :: snapshots). simpl. rewrite Hs. injection Hret as Hret.
    rewrite Hret. split; [reflexivity|]. constructor; [|exact Hall].
    split; [exact Hn|]. split.
    + intros err Herr. rewrite (Hf err Herr). repeat split.
    + intros Hnone.
      destruct (Hh Hnone) as (cr & lr & c & H1 & H2 & H3 & ->).
      repeat split. now exists cr, lr, c.
Qed.

End StatsProperties.

Lemma getAllDatabaseStats_one_snapshot_per_backend_witness :
  exists s1 s2 s3,
    fst (getAllDatabaseStats parseDecimal statsWorld)
    = Return [inl s1; inl s2; inl s3]
    /\ (status s1 = "healthy" /\ totalPosts s1 = VNum 1)
    /\ s2 = errorSnapshot "CockroachDB" {| message := "ECONNREFUSED" |}
    /\ (status s3 = "healthy" /\ totalPosts s3 = VNum 1).
Proof.
  destruct (getAllDatabaseStats_one_snapshot_per_backend parseDecimal statsWorld)
    as (snapshots & Hret & Hall).
  unfold statsWorld in Hall.
  inversion Hall as [|e1 s1 l1 r1 (_ & _ & H1) Hall1]; subst.
  inversion Hall1 as [|e2 s2 l2 r2 (_ & H2 & _) Hall2]; subst.
  inversion Hall2 as [|e3 s3 l3 r3 (_ & _ & H3) Hall3]; subst.
  inversion Hall3; subst.
  exists s1, s2, s3. split; [exact Hret|].
  destruct (H1 eq_refl) as (Hst1 & _ & cr1 & lr1 & c1 & A1 & _ & B1 & T1 & _).
  destruct (H3 eq_refl) as (Hst3 & _ & cr3 & lr3 & c3 & A3 & _ & B3 & T3 & _).
  destruct (H2 {| message := "ECONNREFUSED" |} eq_refl) as (E2 & _).
  vm_compute in A1. injection A1 as <-. vm_compute in B1. injection B1 as <-.
  vm_compute in A3. injection A3 as <-. vm_compute in B3. injection B3 as <-.
  repeat split; assumption.
Defined.

(** One backend failing its count query: the sentinel for it, valid
    snapshots for the others. *)
Example getAllDatabaseStats_one_down :
  fst (getAllDatabaseStats parseDecimal statsWorld)
  = Return [inl {| st_name := "Aiven PostgreSQL"; totalPosts := VNum 1;
                   latestPost := VNum 2; status := "healthy";
                   st_error := None |};
            inl {| st_name := "CockroachDB"; totalPosts := VNum (-1);
                   latestPost := VNull; status := "error";
                   st_error := Some "ECONNREFUSED" |};
            inl {| st_name := "Neon"; totalPosts := VNum 1;
                   latestPost := VNum 2; status := "healthy";
                   st_error := None |}].
Proof. reflexivity. Qed.

(** ** No reader and no shutdown throws *)

Lemma scanFallbacks_found (g : Value) (fallbacks : list Entry) :
  fst (scanFallbacks g fallbacks)
  = Return (existsb (fun e => finds g (pool e)) fallbacks).
Proof.
  induction fallbacks as [|e rest IH]; simpl; [reflexivity|].
  rewrite findGuid_runOn. destruct (finds g (pool e)); simpl; [reflexivity|].
  now destruct (scanFallbacks g rest).
Qed.

(** The reader is the disjunction of what the backends find. *)
Lemma isGuidExists_found (g : Value) (w : World) :
  fst (isGuidExists g w) = Return (existsb (fun e => finds g (pool e)) w).
Proof.
  destruct w as [|primary fallbacks]; simpl; [reflexivity|].
  rewrite findGuid_runOn. destruct (finds g (pool primary)); simpl; [reflexivity|].
  pose proof (scanFallbacks_found g fallbacks) as H.
  now destruct (scanFallbacks g fallbacks).
Qed.

Lemma closeTask_releases (n : string) (p : Pool) :
  closeTask n p = (Return tt, record End p).
Proof.
  unfold closeTask, tryCatch, endPool, bind, call.
  destruct (answer p End); reflexivity.
Qed.

Lemma closeAllConnections_releases (w : World) :
  closeAllConnections w = (Return tt, map (asked End) w).
Proof.
  unfold closeAllConnections, closePromises.
  pose proof (allSettled_world closeTask w) as H.
  destruct (allSettled closeTask w) as [results w']. simpl in H. rewrite H.
  f_equal. apply map_ext. intros e. unfold runOn.
  now rewrite closeTask_releases.
Qed.

(** C5. Whatever the backends do and whatever guid is asked for,
    [isGuidExists], [testAllConnections], [getAllDatabaseStats] and
    [closeAllConnections] return normally.  A failing backend degrades to a
    conservative answer: when every existence query throws the reader
    answers false; a backend whose ping throws is reported with
    [connected: false] and the message; a backend whose statistics cannot be
    taken is reported with the sentinel snapshot ([totalPosts: -1]); and
    shutdown asks every pool to end, once, whether or not an earlier one
    failed to. *)
Theorem readers_and_shutdown_never_raise
  (parseInt : Value -> Value) (g : Value) (w : World) :
  (exists found,
      fst (isGuidExists g w) = Return found
      /\ (Forall (fun e => failsOn (Query guidQuery [g]) (pool e) = true) w ->
          found = false))
  /\ (exists results,
         fst (testAllConnections w) = Return results
         /\ forall e err,
             In e w ->
             answer (pool e) (Query pingQuery []) = Rejects err ->
             In (Fulfilled {| pr_name := name e; connected := false;
                              pr_error := Some (message err) |}) results)
  /\ (exists snapshots,
         fst (getAllDatabaseStats parseInt w) = Return snapshots
         /\ forall e err,
             In e w ->
             statsFailure (pool e) = Some err ->
             In (inl {| st_name := name e; totalPosts := VNum (-1);
                        latestPost := VNull; status := "error";
                        st_error := Some (message err) |}) snapshots)
  /\ closeAllConnections w = (Return tt, map (asked End) w).
Proof.
  split; [|split; [|split]].
  - eexists. split; [apply isGuidExists_found|].
    intros Hall. apply not_true_is_false. intros Hex.
    apply existsb_exists in Hex. destruct Hex as (e & Hin & Hfind).
    rewrite Forall_forall in Hall. specialize (Hall e Hin).
    unfold finds in Hfind. unfold failsOn, resolves in Hall.
    destruct (answer (pool e) (Query guidQuery [g])); discriminate.
  - eexists. split; [apply testAllConnections_results|].
    intros e err Hin Herr.
    apply in_map_iff. exists e. split; [|exact Hin].
    unfold probeOf. now rewrite Herr.
  - eexists. split; [apply getAllDatabaseStats_results|].
    intros e err Hin Herr.
    apply in_map_iff. exists e. split; [|exact Hin].
    destruct (statsTask_snapshot parseInt (name e) (pool e))
      as (s & -> & _ & Hf & _).
    now rewrite (Hf err Herr).
  - apply closeAllConnections_releases.
Qed.

Lemma readers_and_shutdown_never_raise_witness :
  fst (isGuidExists (VStr "g1") deadWorld) = Return false
  /\ fst (testAllConnections deadWorld)
     = Return [Fulfilled {| pr_name := "Aiven PostgreSQL"; connected := false;
                            pr_error := Some "ECONNREFUSED" |};
               Fulfilled {| pr_name := "CockroachDB"; connected := false;
                            pr_error := Some "ETIMEDOUT" |};
               Fulfilled {| pr_name := "Neon"; connected := false;
                            pr_error := Some "ENOTFOUND" |}]
  /\ In (inl (errorSnapshot "CockroachDB" {| message := "ETIMEDOUT" |}))
        (match fst (getAllDatabaseStats parseDecimal deadWorld) with
         | Return snapshots => snapshots
         | Throw _ => []
         end)
  /\ closeAllConnections deadWorld = (Return tt, map (asked End) deadWorld).
Proof.
  destruct (readers_and_shutdown_never_raise parseDecimal (VStr "g1") deadWorld)
    as ((found & Hf & Hfalse) & (results & Hr & _) & (snaps & Hs & Hin) & Hc).
  split; [|split; [|split]].
  - rewrite Hf, Hfalse; [reflexivity|]. repeat constructor.
  - reflexivity.
  - rewrite Hs.
    apply (Hin {| name := "CockroachDB"; pool := downPool "ETIMEDOUT" |}
               {| message := "ETIMEDOUT" |}).
    + right. left. reflexivity.
    + reflexivity.
  - exact Hc.
Defined.

(** ** Writing to a healthy backend *)

Lemma parse_createTableQuery : parseStatement createTableQuery = CreateTable.
Proof. reflexivity. Qed.

Lemma parse_insertQuery : parseStatement insertQuery = InsertPost.
Proof. reflexivity. Qed.

Arguments parseStatement : simpl never.

Lemma insertParams_readable (post : Value) :
  isNullish post = false ->
  insertParams post = Return (map (getPropOpt post) postColumns).
Proof. destruct post; intros H; try discriminate; reflexivity. Qed.

Section Healthy.

Variable prepareValue : Value -> option string.

Lemma replay_snoc (h : list Call) (c : Call) :
  replay prepareValue (h ++ [c])
  = snd (pgStep prepareValue (replay prepareValue h) c).
Proof. unfold replay. now rewrite fold_left_app. Qed.

Lemma record_healthy (h : list Call) (c : Call) :
  record c (healthyPool prepareValue h) = healthyPool prepareValue (h ++ [c]).
Proof. reflexivity. Qed.

Lemma pgStep_create (db : Db) :
  pgStep prepareValue db (Query createTableQuery [])
  = (commandDone 0, {| table := Some (rowsOf db); clock := S (clock db) |}).
Proof.
  unfold pgStep, rowsOf. rewrite parse_createTableQuery.
  now destruct (table db).
Qed.

Lemma pgStep_insert (db : Db) (post : Value) (rs : list Row) :
  table db = Some rs ->
  pgStep prepareValue db (insertCall post)
  = (commandDone (if guidTaken (guidOf prepareValue post) rs then 0 else 1),
     {| table := Some (insertRow (rowAt prepareValue post (clock db)) rs);
        clock := S (clock db) |}).
Proof.
  intros Ht. unfold pgStep, insertCall.
  rewrite parse_insertQuery, Ht. reflexivity.
Qed.

(** On a healthy backend whose table exists, the insert loop takes every
    readable post and leaves the rows [insertPosts prepareValue] computes. *)
Lemma insertAll_healthy (posts : list Value) (h : list Call) (rs : list Row) :
  Forall (fun post => isNullish post = false) posts ->
  table (replay prepareValue h) = Some rs ->
  insertAll posts (healthyPool prepareValue h)
  = (Return tt, healthyPool prepareValue (h ++ map insertCall posts))
  /\ table (replay prepareValue (h ++ map insertCall posts))
     = Some (insertPosts prepareValue posts (clock (replay prepareValue h)) rs).
Proof.
  intros Hposts. revert h rs.
  induction Hposts as [|post rest Hpost _ IH]; intros h rs Ht; simpl.
  - now rewrite app_nil_r.
  - unfold bind, lift. rewrite (insertParams_readable post Hpost).
    unfold query, call. fold (insertCall post).
    unfold answer. simpl respond. simpl history. unfold pgRespond.
    rewrite (pgStep_insert _ post rs Ht). simpl fst.
    rewrite record_healthy.
    assert (Ht' : table (replay prepareValue (h ++ [insertCall post]))
                  = Some (insertRow
                            (rowAt prepareValue post
                               (clock (replay prepareValue h))) rs)).
    { rewrite replay_snoc, (pgStep_insert _ post rs Ht). reflexivity. }
    assert (Hc : clock (replay prepareValue (h ++ [insertCall post]))
                 = S (clock (replay prepareValue h))).
    { rewrite replay_snoc, (pgStep_insert _ post rs Ht). reflexivity. }
    destruct (IH _ _ Ht') as [Hrun Htab].
    rewrite <- app_assoc in Hrun, Htab. simpl in Hrun, Htab.
    unfold commandDone. rewrite Hrun, Htab, Hc. split; reflexivity.
Qed.

Lemma saveTask_healthy (n : string) (h : list Call) (posts : list Value) :
  Forall (fun post => isNullish post = false) posts ->
  saveTask posts n (healthyPool prepareValue h)
  = (Return {| bo_name := n; success := true; bo_error := None |},
     healthyPool prepareValue
       (h ++ Query createTableQuery [] :: map insertCall posts))
  /\ storedRows prepareValue
       (healthyPool prepareValue
          (h ++ Query createTableQuery [] :: map insertCall posts))
     = insertPosts prepareValue posts (S (clock (replay prepareValue h)))
         (storedRows prepareValue (healthyPool prepareValue h)).
Proof.
  intros Hposts.
  assert (Ht : table (replay prepareValue (h ++ [Query createTableQuery []]))
               = Some (rowsOf (replay prepareValue h)))
    by (rewrite replay_snoc, pgStep_create; reflexivity).
  assert (Hc : clock (replay prepareValue (h ++ [Query createTableQuery []]))
               = S (clock (replay prepareValue h)))
    by (rewrite replay_snoc, pgStep_create; reflexivity).
  destruct (insertAll_healthy posts _ _ Hposts Ht) as [Hrun Htab].
  rewrite <- app_assoc in Hrun, Htab. simpl in Hrun, Htab.
  split.
  - unfold saveTask, tryCatch, bind, query, call.
    unfold answer. simpl respond. simpl history. unfold pgRespond.
    rewrite pgStep_create. simpl fst. rewrite record_healthy.
    unfold commandDone. rewrite Hrun. reflexivity.
  - unfold storedRows, rowsOf at 1. simpl history. rewrite Htab, Hc.
    reflexivity.
Qed.

(** The history and the rows a non-empty batch of readable posts leaves on
    a single healthy backend. *)
Lemma savePosts_healthy (n : string) (h : list Call) (posts : list Value) :
  posts <> [] ->
  Forall (fun post => isNullish post = false) posts ->
  savePosts (VArr posts) (single prepareValue n h)
  = (Return tt,
     single prepareValue n
       (h ++ Query createTableQuery [] :: map insertCall posts)).
Proof.
  intros Hne Hposts.
  destruct (saveTask_healthy n h posts Hposts) as [Hrun _].
  unfold savePosts. simpl isArray. simpl arrayItems.
  destruct posts as [|x rest]; [congruence|].
  cbn [negb orb List.length Nat.eqb].
  unfold savePromises, single. cbn [allSettled]. unfold runOn.
  cbn [name pool]. rewrite Hrun. reflexivity.
Qed.

End Healthy.

(** ** Deduplication on [guid] *)

Section Dedup.

Variable prepareValue : Value -> option string.

Lemma sameGuid_refl (g : string) (r : Row) :
  guid r = Some g -> sameGuid g r = true.
Proof. unfold sameGuid. intros ->. apply String.eqb_refl. Qed.

(** A conflicting insert leaves the rows as they are. *)
Lemma insertRow_conflict (r : Row) (rs : list Row) :
  guidTaken (guid r) rs = true -> insertRow r rs = rs.
Proof. unfold insertRow. now intros ->. Qed.

Lemma guidTaken_insertRow (g : option string) (r : Row) (rs : list Row) :
  guidTaken g rs = true -> guidTaken g (insertRow r rs) = true.
Proof.
  unfold insertRow. destruct (guidTaken (guid r) rs); [easy|].
  destruct g as [s|]; simpl; [|easy]. intros H.
  rewrite existsb_app, H. reflexivity.
Qed.

Lemma guidTaken_inserted (g : string) (r : Row) (rs : list Row) :
  guid r = Some g -> guidTaken (Some g) (insertRow r rs) = true.
Proof.
  intros Hg. unfold insertRow. rewrite Hg.
  destruct (guidTaken (Some g) rs) eqn:E; [exact E|].
  simpl. rewrite existsb_app. simpl. rewrite (sameGuid_refl g r Hg).
  now rewrite orb_true_r.
Qed.

Lemma guidTaken_insertPosts (g : option string) (posts : list Value)
      (now : nat) (rs : list Row) :
  guidTaken g rs = true ->
  guidTaken g (insertPosts prepareValue posts now rs) = true.
Proof.
  revert now rs. induction posts as [|post rest IH]; intros now rs H; simpl.
  - exact H.
  - apply IH. now apply guidTaken_insertRow.
Qed.

(** After a batch, the guid of each of its posts is in the table. *)
Lemma insertPosts_covers (posts : list Value) (now : nat) (rs : list Row) :
  Forall (fun post => guidOf prepareValue post <> None) posts ->
  Forall (fun post =>
            guidTaken (guidOf prepareValue post)
              (insertPosts prepareValue posts now rs) = true) posts.
Proof.
  intros H. revert now rs.
  induction H as [|post rest Hg _ IH]; intros now rs; constructor.
  - simpl. apply guidTaken_insertPosts.
    destruct (guidOf prepareValue post) as [g|] eqn:E; [|congruence].
    apply guidTaken_inserted. exact E.
  - simpl. apply IH.
Qed.

(** A batch whose guids are all in the table changes nothing. *)
Lemma insertPosts_conflicts (posts : list Value) (now : nat) (rs : list Row) :
  Forall (fun post => guidTaken (guidOf prepareValue post) rs = true) posts ->
  insertPosts prepareValue posts now rs = rs.
Proof.
  intros H. revert now.
  induction H as [|post rest Hg _ IH]; intros now; simpl; [reflexivity|].
  rewrite insertRow_conflict by exact Hg. apply IH.
Qed.

Lemma single_rows (n : string) (h : list Call) :
  map (fun e => storedRows prepareValue (pool e)) (single prepareValue n h)
  = [storedRows prepareValue (healthyPool prepareValue h)].
Proof. reflexivity. Qed.

(** C6. Writing a batch of posts, each with a guid, to a single healthy
    backend and then writing the same batch again: both calls return
    normally, and the rows stored after the second call are the rows
    stored after the first, so the row count is the same.  An insert whose
    guid is already stored is answered without error, affects no row and
    leaves the stored rows untouched. *)
Theorem savePosts_twice_stores_what_once_stores
  (n : string) (h : list Call) (posts : list Value) :
  Forall (fun post => isNullish post = false
                      /\ guidOf prepareValue post <> None) posts ->
  exists once twice,
    savePosts (VArr posts) (single prepareValue n h) = (Return tt, once)
    /\ savePosts (VArr posts) once = (Return tt, twice)
    /\ map (fun e => storedRows prepareValue (pool e)) twice
       = map (fun e => storedRows prepareValue (pool e)) once
    /\ rowCounts prepareValue twice = rowCounts prepareValue once
    /\ forall (post : Value) (served : list Call),
        guidTaken (guidOf prepareValue post)
          (storedRows prepareValue (healthyPool prepareValue served)) = true ->
        answer (healthyPool prepareValue served) (insertCall post)
        = commandDone 0
        /\ storedRows prepareValue
             (record (insertCall post) (healthyPool prepareValue served))
           = storedRows prepareValue (healthyPool prepareValue served).
Proof.
  intros Hposts.
  assert (Hread : Forall (fun post => isNullish post = false) posts)
    by (eapply Forall_impl; [|exact Hposts]; now intros ? [? _]).
  assert (Hguid : Forall (fun post => guidOf prepareValue post <> None) posts)
    by (eapply Forall_impl; [|exact Hposts]; now intros ? [_ ?]).
  assert (Hnoop : forall (post : Value) (served : list Call),
             guidTaken (guidOf prepareValue post)
               (storedRows prepareValue (healthyPool prepareValue served))
             = true ->
             answer (healthyPool prepareValue served) (insertCall post)
             = commandDone 0
             /\ storedRows prepareValue
                  (record (insertCall post) (healthyPool prepareValue served))
                = storedRows prepareValue (healthyPool prepareValue served)).
  { intros post served Htaken.
    unfold storedRows, rowsOf in *. simpl history in *.
    destruct (table (replay prepareValue served)) as [rs|] eqn:Et.
    - unfold answer. simpl respond. simpl history. unfold pgRespond.
      rewrite replay_snoc, (pgStep_insert prepareValue _ post rs Et), Htaken.
      simpl. now rewrite insertRow_conflict.
    - now destruct (guidOf prepareValue post). }
  destruct posts as [|x rest].
  - exists (single prepareValue n h), (single prepareValue n h).
    split; [reflexivity|]. split; [reflexivity|].
    split; [reflexivity|]. split; [reflexivity | exact Hnoop].
  - set (batch := x :: rest) in *.
    assert (Hne : batch <> []) by discriminate.
    set (h1 := h ++ Query createTableQuery [] :: map insertCall batch).
    set (h2 := h1 ++ Query createTableQuery [] :: map insertCall batch).
    exists (single prepareValue n h1), (single prepareValue n h2).
    assert (Hrows : storedRows prepareValue (healthyPool prepareValue h2)
                    = storedRows prepareValue (healthyPool prepareValue h1)).
    { destruct (saveTask_healthy prepareValue n h batch Hread) as [_ E1].
      destruct (saveTask_healthy prepareValue n h1 batch Hread) as [_ E2].
      fold h1 in E1. fold h2 in E2. rewrite E2.
      apply insertPosts_conflicts. rewrite E1.
      now apply insertPosts_covers. }
    split; [now apply savePosts_healthy|].
    split; [now apply savePosts_healthy|].
    split; [|split]; [| |exact Hnoop].
    + now rewrite !single_rows, Hrows.
    + unfold rowCounts, single. cbn [map pool]. now rewrite Hrows.
Qed.

(** C4. A batch of three posts whose first and third share a guid, written
    to a single healthy backend that stores no row yet: the call returns
    normally, two rows are stored, and the only row with that guid is the
    one of the first post, with the first post's title and other fields;
    the third post changed nothing. *)
Theorem savePosts_duplicate_in_batch_keeps_first
  (n : string) (h : list Call) (p1 p2 p3 : Value) (g : string) :
  storedRows prepareValue (healthyPool prepareValue h) = [] ->
  isNullish p1 = false -> isNullish p2 = false -> isNullish p3 = false ->
  guidOf prepareValue p1 = Some g ->
  guidOf prepareValue p3 = Some g ->
  guidOf prepareValue p2 <> Some g ->
  exists after rs t1 t2,
    savePosts (VArr [p1; p2; p3]) (single prepareValue n h)
    = (Return tt, after)
    /\ map (fun e => storedRows prepareValue (pool e)) after = [rs]
    /\ List.length rs = 2
    /\ rs = [rowAt prepareValue p1 t1; rowAt prepareValue p2 t2]
    /\ rowsWithGuid g rs = [rowAt prepareValue p1 t1]
    /\ Forall (fun r => title r = prepareValue (getPropOpt p1 "title"))
         (rowsWithGuid g rs).
Proof.
  intros Hempty H1 H2 H3 G1 G3 G2.
  set (batch := [p1; p2; p3]).
  assert (Hread : Forall (fun post => isNullish post = false) batch)
    by (repeat constructor; assumption).
  destruct (saveTask_healthy prepareValue n h batch Hread) as [_ Hrows].
  rewrite Hempty in Hrows.
  set (t := S (clock (replay prepareValue h))) in *.
  assert (Hfinal : insertPosts prepareValue batch t []
                   = [rowAt prepareValue p1 t; rowAt prepareValue p2 (S t)]).
  { simpl. unfold insertRow at 3. cbn [guid rowAt]. rewrite G1. simpl.
    unfold insertRow at 2. cbn [guid rowAt].
    assert (E2 : guidTaken (guidOf prepareValue p2) [rowAt prepareValue p1 t]
                 = false).
    { destruct (guidOf prepareValue p2) as [g2|] eqn:E; [|reflexivity].
      simpl. unfold sameGuid. cbn [guid rowAt]. rewrite G1.
      rewrite orb_false_r. apply String.eqb_neq. congruence. }
    rewrite E2. simpl. unfold insertRow. cbn [guid rowAt]. rewrite G3.
    simpl. unfold sameGuid at 1. cbn [guid rowAt]. rewrite G1.
    now rewrite String.eqb_refl. }
  assert (Hwith : rowsWithGuid g
                    [rowAt prepareValue p1 t; rowAt prepareValue p2 (S t)]
                  = [rowAt prepareValue p1 t]).
  { unfold rowsWithGuid. simpl. unfold sameGuid. cbn [guid rowAt].
    rewrite G1, String.eqb_refl.
    destruct (guidOf prepareValue p2) as [g2|] eqn:E; [|reflexivity].
    assert (Hneq : (g =? g2)%string = false)
      by (apply String.eqb_neq; congruence).
    now rewrite Hneq. }
  eexists _, _, t, (S t).
  split; [apply savePosts_healthy; [discriminate | exact Hread]|].
  split; [rewrite single_rows, Hrows, Hfinal; reflexivity|].
  split; [reflexivity|]. split; [reflexivity|].
  split; [exact Hwith|]. rewrite Hwith. repeat constructor.
Qed.

End Dedup.

Lemma savePosts_twice_stores_what_once_stores_witness :
  Forall (fun post => isNullish post = false /\ guidOf textOnly post <> None)
    sampleBatch
  /\ rowCounts textOnly
       (snd (savePosts (VArr sampleBatch)
               (snd (savePosts (VArr sampleBatch) (single textOnly "Neon" [])))))
     = rowCounts textOnly
         (snd (savePosts (VArr sampleBatch) (single textOnly "Neon" []))).
Proof.
  assert (H : Forall (fun post => isNullish post = false
                                  /\ guidOf textOnly post <> None) sampleBatch)
    by (repeat constructor; discriminate).
  split; [exact H|].
  destruct (savePosts_twice_stores_what_once_stores textOnly "Neon" []
              sampleBatch H) as (once & twice & H1 & H2 & _ & Hc & _).
  rewrite H1. cbn [snd]. rewrite H2. exact Hc.
Defined.

(** Writing the sample batch once or twice stores two rows. *)
Example savePosts_twice_two_rows :
  rowCounts textOnly
    (snd (savePosts (VArr sampleBatch) (single textOnly "Neon" []))) = [2]
  /\ rowCounts textOnly
       (snd (savePosts (VArr sampleBatch)
               (snd (savePosts (VArr sampleBatch) (single textOnly "Neon" [])))))
     = [2].
Proof. split; reflexivity. Qed.

(** The guid is what deduplicates: a post without one is NULL in the unique
    column, conflicts with nothing and is stored again by a second write. *)
Example savePosts_without_guid_stores_again :
  rowCounts textOnly
    (snd (savePosts (VArr [VObj [("title", VStr "untitled")]])
            (single textOnly "Neon" []))) = [1]
  /\ rowCounts textOnly
       (snd (savePosts (VArr [VObj [("title", VStr "untitled")]])
               (snd (savePosts (VArr [VObj [("title", VStr "untitled")]])
                       (single textOnly "Neon" []))))) = [2].
Proof. split; reflexivity. Qed.

Lemma savePosts_duplicate_in_batch_keeps_first_witness :
  exists after rs t1 t2,
    savePosts (VArr [post "g1" "first"; post "g2" "second"; post "g1" "third"])
      (single textOnly "Neon" []) = (Return tt, after)
    /\ map (fun e => storedRows textOnly (pool e)) after = [rs]
    /\ List.length rs = 2
    /\ rs = [rowAt textOnly (post "g1" "first") t1;
             rowAt textOnly (post "g2" "second") t2]
    /\ rowsWithGuid "g1" rs = [rowAt textOnly (post "g1" "first") t1]
    /\ Forall (fun r => title r
                        = textOnly (getPropOpt (post "g1" "first") "title"))
         (rowsWithGuid "g1" rs).
Proof.
  apply (savePosts_duplicate_in_batch_keeps_first textOnly "Neon" []
           (post "g1" "first") (post "g2" "second") (post "g1" "third") "g1");
    try reflexivity.
  discriminate.
Defined.

(** The stored row for the duplicated guid carries the first title. *)
Example savePosts_duplicate_title :
  map (fun e => map (fun r => (guid r, title r)) (storedRows textOnly (pool e)))
    (snd (savePosts (VArr sampleBatch) (single textOnly "Neon" [])))
  = [[(Some "g1", Some "first"); (Some "g2", Some "second")]].
Proof. reflexivity. Qed.

(** The history [written] is the one [savePosts] leaves. *)
Example savePosts_history :
  map (fun e => history (pool e))
    (snd (savePosts (VArr [post "g1" "first"]) (single textOnly "Neon" [])))
  = [written "g1" "first"].
Proof. reflexivity. Qed.

(** * Further properties *)

(** ** What the writer sends to a backend *)

Lemma afterCalls_record (c : Call) (sent : list Call) (p : Pool) :
  afterCalls sent (record c p) = afterCalls (c :: sent) p.
Proof.
  unfold afterCalls, record. simpl. now rewrite <- app_assoc.
Qed.

Lemma afterCalls_one (c : Call) (p : Pool) : record c p = afterCalls [c] p.
Proof. reflexivity. Qed.

Lemma insertAll_sends (posts : list Value) (p : Pool) :
  exists sent rest,
    snd (insertAll posts p) = afterCalls sent p
    /\ map insertCall posts = sent ++ rest
    /\ answeredButLast p sent
    /\ (insertsSucceed posts p = true -> rest = []).
Proof.
  revert p. induction posts as [|x xs IH]; intros p.
  - exists [], []. simpl. unfold afterCalls. rewrite app_nil_r.
    destruct p. repeat split. constructor.
  - simpl. unfold bind, lift.
    destruct (isNullish x) eqn:Hx.
    + exists [], (insertCall x :: map insertCall xs).
      assert (Hthrow : exists e, insertParams x = Throw e)
        by (destruct x; try discriminate; eexists; reflexivity).
      destruct Hthrow as [e ->]. simpl. unfold afterCalls.
      rewrite app_nil_r. destruct p. repeat split; [constructor | discriminate].
    + rewrite (insertParams_readable x Hx). fold (insertCall x).
      unfold query, call. fold (insertCall x).
      destruct (answer p (insertCall x)) eqn:Ha; simpl.
      * destruct (IH (record (insertCall x) p)) as (sent & rest & Hs & Hm & Hc & Hf).
        exists (insertCall x :: sent), rest.
        rewrite Hs, afterCalls_record, Hm. repeat split.
        -- constructor; [now rewrite Ha | exact Hc].
        -- exact Hf.
      * exists [insertCall x], (map insertCall xs). repeat split.
        -- constructor.
        -- discriminate.
Qed.

Lemma saveTask_sends (posts : list Value) (n : string) (p : Pool) :
  exists sent rest,
    snd (saveTask posts n p) = afterCalls sent p
    /\ batchCalls posts = sent ++ rest
    /\ sent <> []
    /\ answeredButLast p sent
    /\ (batchSucceeds posts p = true -> rest = []).
Proof.
  unfold saveTask, tryCatch, bind, query, call, batchSucceeds, batchCalls.
  destruct (answer p (Query createTableQuery [])) eqn:Ha; simpl.
  - destruct (insertAll_sends posts (record (Query createTableQuery []) p))
      as (sent & rest & Hs & Hm & Hc & Hf).
    exists (Query createTableQuery [] :: sent), rest.
    assert (Hsnd : snd (match insertAll posts (record (Query createTableQuery []) p)
                        with
                        | (Return _, s') =>
                            ret {| bo_name := n; success := true;
                                   bo_error := None |} s'
                        | (Throw e, s') => (Throw e, s')
                        end)
                   = snd (insertAll posts (record (Query createTableQuery []) p)))
      by (destruct (insertAll posts _) as [[u|e] p']; reflexivity).
    split.
    + destruct (match insertAll posts (record (Query createTableQuery []) p) with
                | (Return _, s') => _
                | (Throw e, s') => _
                end) as [[v|e] p'] eqn:E; simpl in *;
        rewrite Hsnd, Hs; apply afterCalls_record.
    + rewrite Hm. repeat split; try discriminate; [|exact Hf].
      constructor; [now rewrite Ha | exact Hc].
  - exists [Query createTableQuery []], (map insertCall posts).
    repeat split; try discriminate. constructor.
Qed.

Lemma Forall2_map_right {A B} (R : A -> B -> Prop) (f : A -> B) (l : list A) :
  (forall a, R a (f a)) -> Forall2 R l (map f l).
Proof. intros H. induction l; simpl; constructor; auto. Qed.

Lemma savePosts_world (posts : list Value) (w : World) :
  posts <> [] ->
  snd (savePosts (VArr posts) w)
  = map (fun e => snd (runOn (saveTask posts) e)) w.
Proof.
  intros Hne. unfold savePosts. simpl isArray. simpl arrayItems.
  destruct posts as [|x xs]; [congruence|].
  cbn [negb orb List.length Nat.eqb]. unfold savePromises.
  pose proof (allSettled_world (saveTask (x :: xs)) w) as H.
  destruct (allSettled (saveTask (x :: xs)) w) as [results w'].
  simpl in H. rewrite <- H. now destruct (successCount results =? 0)%nat.
Qed.

(** X1. Writing a non-empty batch reaches every backend of the registry,
    whatever the others do: each pool receives a non-empty prefix of "create
    the table, then one insert per post in batch order".  Every statement a
    pool received but the last was answered, so nothing is sent to a backend
    after a statement it rejected; a backend that completes the batch has
    received all of it.  Names and order of the registry are kept. *)
Theorem savePosts_sends_each_backend_a_prefix (posts : list Value) (w : World) :
  posts <> [] ->
  Forall2 (fun e e' =>
             name e' = name e
             /\ exists sent rest,
                 pool e' = afterCalls sent (pool e)
                 /\ batchCalls posts = sent ++ rest
                 /\ sent <> []
                 /\ answeredButLast (pool e) sent
                 /\ (batchSucceeds posts (pool e) = true -> rest = []))
    w (snd (savePosts (VArr posts) w)).
Proof.
  intros Hne. rewrite (savePosts_world posts w Hne).
  apply Forall2_map_right. intros e. unfold runOn.
  pose proof (saveTask_sends posts (name e) (pool e)) as H.
  destruct (saveTask posts (name e) (pool e)) as [c p']. simpl in *.
  split; [reflexivity | exact H].
Qed.

Lemma savePosts_sends_each_backend_a_prefix_witness :
  sampleBatch <> []
  /\ Forall2 (fun e e' =>
                name e' = name e
                /\ exists sent rest,
                    pool e' = afterCalls sent (pool e)
                    /\ batchCalls sampleBatch = sent ++ rest
                    /\ sent <> []
                    /\ answeredButLast (pool e) sent
                    /\ (batchSucceeds sampleBatch (pool e) = true -> rest = []))
       sampleWorld (snd (savePosts (VArr sampleBatch) sampleWorld)).
Proof.
  split; [discriminate|].
  apply (savePosts_sends_each_backend_a_prefix sampleBatch sampleWorld).
  discriminate.
Defined.

(** The unreachable backend of the sample registry received the table
    creation and nothing else; the other two the whole batch. *)
Example savePosts_sample_histories :
  map (fun e => List.length (history (pool e)))
    (snd (savePosts (VArr sampleBatch) sampleWorld)) = [4; 1; 4].
Proof. reflexivity. Qed.

(** ** A batch with an element that is null or undefined *)

Lemma insertParams_nullish (v : Value) :
  isNullish v = true -> insertParams v = Throw (unreadable v).
Proof. destruct v; intros H; try discriminate; reflexivity. Qed.

Lemma insertsSucceed_nullish (pre rest : list Value) (bad : Value) (p : Pool) :
  isNullish bad = true -> insertsSucceed (pre ++ bad :: rest) p = false.
Proof.
  intros Hbad. revert p. induction pre as [|x xs IH]; intros p; simpl.
  - now rewrite (insertParams_nullish bad Hbad).
  - destruct (insertParams x); [|reflexivity].
    rewrite IH. apply andb_false_r.
Qed.

(** X2. A batch holding an element that is [null] or [undefined] fails on
    every backend, reachable or not, so [savePosts] throws the aggregate
    error for every registry. *)
Theorem savePosts_nullish_element_throws
  (pre rest : list Value) (bad : Value) (w : World) :
  isNullish bad = true ->
  fst (savePosts (VArr (pre ++ bad :: rest)) w) = Throw allFailed.
Proof.
  intros Hbad.
  assert (Hne : pre ++ bad :: rest <> []) by (now destruct pre).
  rewrite (savePosts_batch _ w Hne).
  assert (H0 : List.length
                 (filter (fun e => batchSucceeds (pre ++ bad :: rest) (pool e)) w)
               = 0).
  { apply filter_nil_iff, Forall_forall. intros e _. unfold batchSucceeds.
    rewrite (insertsSucceed_nullish pre rest bad _ Hbad). apply andb_false_r. }
  now rewrite H0.
Qed.

Lemma savePosts_nullish_element_throws_witness :
  isNullish VNull = true
  /\ fst (savePosts (VArr ([post "g1" "first"] ++ VNull :: [post "g2" "second"]))
            (allPools (healthyPool textOnly []) (healthyPool textOnly [])
                      (healthyPool textOnly [])))
     = Throw allFailed.
Proof.
  split; [reflexivity|].
  apply savePosts_nullish_element_throws. reflexivity.
Defined.

Lemma insertAll_app (a b : list Value) (p : Pool) :
  insertAll (a ++ b) p
  = match insertAll a p with
    | (Return _, p') => insertAll b p'
    | (Throw e, p') => (Throw e, p')
    end.
Proof.
  revert p. induction a as [|x xs IH]; intros p; simpl; [reflexivity|].
  unfold bind, lift. destruct (insertParams x); [|reflexivity].
  unfold query, call. destruct (answer p (Query insertQuery a)); [|reflexivity].
  apply IH.
Qed.

Section PartialWrite.

Variable prepareValue : Value -> option string.

(** X3. The write is not atomic.  On a healthy backend, a batch whose
    element [bad] is [null] or [undefined] makes the call throw, the
    backend's outcome carrying the TypeError, and yet the posts before [bad]
    have been inserted: the backend has received the table creation and
    their inserts, and stores the rows they leave.  The posts after [bad]
    are never sent. *)
Theorem savePosts_nullish_element_keeps_earlier_posts
  (n : string) (h : list Call) (pre rest : list Value) (bad : Value) :
  isNullish bad = true ->
  Forall (fun post => isNullish post = false) pre ->
  savePosts (VArr (pre ++ bad :: rest)) (single prepareValue n h)
  = (Throw allFailed, single prepareValue n (h ++ batchCalls pre))
  /\ fst (savePromises (pre ++ bad :: rest) (single prepareValue n h))
     = [Fulfilled {| bo_name := n; success := false;
                     bo_error := Some (message (unreadable bad)) |}]
  /\ storedRows prepareValue (healthyPool prepareValue (h ++ batchCalls pre))
     = insertPosts prepareValue pre (S (clock (replay prepareValue h)))
         (storedRows prepareValue (healthyPool prepareValue h)).
Proof.
  intros Hbad Hpre.
  destruct (saveTask_healthy prepareValue n h pre Hpre) as [_ Hrows].
  assert (Ht : table (replay prepareValue (h ++ [Query createTableQuery []]))
               = Some (rowsOf (replay prepareValue h)))
    by (rewrite replay_snoc, pgStep_create; reflexivity).
  destruct (insertAll_healthy prepareValue pre _ _ Hpre Ht) as [Hrun _].
  rewrite <- app_assoc in Hrun. simpl in Hrun.
  assert (Htask : saveTask (pre ++ bad :: rest) n (healthyPool prepareValue h)
                  = (Return {| bo_name := n; success := false;
                               bo_error := Some (message (unreadable bad)) |},
                     healthyPool prepareValue (h ++ batchCalls pre))).
  { unfold saveTask, tryCatch, bind, query, call.
    unfold answer. simpl respond. simpl history. unfold pgRespond.
    rewrite pgStep_create. simpl fst. rewrite record_healthy.
    unfold commandDone. rewrite insertAll_app, Hrun. simpl insertAll.
    unfold bind, lift. rewrite (insertParams_nullish bad Hbad). reflexivity. }
  assert (Hproms : savePromises (pre ++ bad :: rest) (single prepareValue n h)
                   = ([Fulfilled {| bo_name := n; success := false;
                                    bo_error := Some (message (unreadable bad)) |}],
                      single prepareValue n (h ++ batchCalls pre))).
  { unfold savePromises, single. cbn [allSettled]. unfold runOn.
    cbn [name pool]. rewrite Htask. reflexivity. }
  split; [|split].
  - unfold savePosts. simpl isArray. simpl arrayItems.
    assert (Hlen : (List.length (pre ++ bad :: rest) =? 0)%nat = false)
      by (now destruct pre).
    rewrite Hlen. cbn [negb orb]. rewrite Hproms. reflexivity.
  - now rewrite Hproms.
  - exact Hrows.
Qed.

End PartialWrite.

Lemma savePosts_nullish_element_keeps_earlier_posts_witness :
  savePosts (VArr ([post "g1" "first"] ++ VUndefined :: [post "g2" "second"]))
    (single textOnly "Neon" [])
  = (Throw allFailed,
     single textOnly "Neon" ([] ++ batchCalls [post "g1" "first"]))
  /\ rowCounts textOnly
       (single textOnly "Neon" ([] ++ batchCalls [post "g1" "first"])) = [1].
Proof.
  split; [|reflexivity].
  apply (savePosts_nullish_element_keeps_earlier_posts textOnly "Neon" []
           [post "g1" "first"] [post "g2" "second"] VUndefined).
  - reflexivity.
  - repeat constructor.
Defined.

(** ** What the readers send *)

Lemma testAllConnections_world (w : World) :
  snd (testAllConnections w) = map (asked (Query pingQuery [])) w.
Proof.
  unfold testAllConnections, testPromises.
  pose proof (allSettled_world testTask w) as H.
  destruct (allSettled testTask w) as [results w']. simpl in *. rewrite H.
  apply map_ext. intros e. unfold runOn, testTask, tryCatch, bind, query, call.
  now destruct (answer (pool e) (Query pingQuery [])).
Qed.

Lemma statsTask_pool (parseInt : Value -> Value) (n : string) (p : Pool) :
  snd (statsTask parseInt n p) = afterCalls (statsCalls p) p.
Proof.
  unfold statsTask, statsCalls, tryCatch, bind, lift, query, call.
  destruct (answer p (Query countQuery [])) as [countResult|e]; simpl;
    [|reflexivity].
  destruct (answer (record (Query countQuery []) p) (Query latestQuery []));
    simpl.
  - destruct (getProp (firstRow countResult) "count"); simpl;
      unfold afterCalls, record; simpl; now rewrite <- app_assoc.
  - unfold afterCalls, record. simpl. now rewrite <- app_assoc.
Qed.

Lemma getAllDatabaseStats_world (parseInt : Value -> Value) (w : World) :
  snd (getAllDatabaseStats parseInt w)
  = map (fun e => withPool e (afterCalls (statsCalls (pool e)) (pool e))) w.
Proof.
  unfold getAllDatabaseStats, statsPromises.
  pose proof (allSettled_world (statsTask parseInt) w) as H.
  destruct (allSettled (statsTask parseInt) w) as [results w'].
  simpl in *. rewrite H. apply map_ext. intros e. unfold runOn, withPool.
  pose proof (statsTask_pool parseInt (name e) (pool e)) as Hp.
  destruct (statsTask parseInt (name e) (pool e)) as [c p']. simpl in Hp.
  now rewrite Hp.
Qed.

(** X4. The prober sends one [SELECT 1] to every pool and nothing else.  The
    statistics collector sends the count query to every pool, and the
    latest-timestamp query to exactly the pools that answered the count: a
    backend whose count query threw is not asked again. *)
Theorem probes_and_statistics_statements
  (parseInt : Value -> Value) (w : World) :
  snd (testAllConnections w)
  = map (fun e => withPool e (afterCalls [Query pingQuery []] (pool e))) w
  /\ snd (getAllDatabaseStats parseInt w)
     = map (fun e => withPool e (afterCalls (statsCalls (pool e)) (pool e))) w
  /\ Forall (fun e =>
               (resolves (answer (pool e) (Query countQuery [])) = false ->
                statsCalls (pool e) = [Query countQuery []])
               /\ (resolves (answer (pool e) (Query countQuery [])) = true ->
                   statsCalls (pool e)
                   = [Query countQuery []; Query latestQuery []])) w.
Proof.
  split; [apply testAllConnections_world|].
  split; [apply getAllDatabaseStats_world|].
  apply Forall_forall. intros e _. unfold statsCalls.
  split; intros ->; reflexivity.
Qed.

Lemma probes_and_statistics_statements_witness :
  map (fun e => history (pool e))
    (snd (getAllDatabaseStats parseDecimal statsWorld))
  = [written "g1" "first" ++ [Query countQuery []; Query latestQuery []];
     [Query countQuery []];
     written "g2" "first" ++ [Query countQuery []; Query latestQuery []]].
Proof.
  rewrite (proj1 (proj2 (probes_and_statistics_statements parseDecimal
                           statsWorld))).
  reflexivity.
Defined.

(** ** The readers leave the data alone *)

Lemma parse_guidQuery : parseStatement guidQuery = SelectGuid.
Proof. reflexivity. Qed.

Lemma parse_pingQuery : parseStatement pingQuery = Ping.
Proof. reflexivity. Qed.

Lemma parse_countQuery : parseStatement countQuery = CountPosts.
Proof. reflexivity. Qed.

Lemma parse_latestQuery : parseStatement latestQuery = LatestPost.
Proof. reflexivity. Qed.

Lemma isGuidExists_world (g : Value) (w : World) :
  Forall2 (fun e e' => e' = e \/ e' = consulted g e) w (snd (isGuidExists g w)).
Proof.
  assert (Hsame : forall l : list Entry,
             Forall2 (fun e e' => e' = e \/ e' = consulted g e) l l)
    by (intros l; induction l; constructor; auto).
  assert (Hscan : forall l,
             Forall2 (fun e e' => e' = e \/ e' = consulted g e) l
               (snd (scanFallbacks g l))).
  { intros l. induction l as [|e rest IH]; simpl; [constructor|].
    rewrite findGuid_runOn. destruct (finds g (pool e)); simpl.
    - constructor; auto.
    - destruct (scanFallbacks g rest) as [found rest']. simpl in *.
      constructor; auto. }
  destruct w as [|primary fallbacks]; simpl; [constructor|].
  rewrite findGuid_runOn. destruct (finds g (pool primary)); simpl.
  - constructor; auto.
  - specialize (Hscan fallbacks).
    destruct (scanFallbacks g fallbacks) as [found rest']. simpl in *.
    constructor; auto.
Qed.

Section ReadOnly.

Variable prepareValue : Value -> option string.

Lemma pgStep_readOnly (db : Db) (c : Call) :
  readOnly c = true ->
  rowsOf (snd (pgStep prepareValue db c)) = rowsOf db.
Proof.
  destruct c as [sql params|]; [|reflexivity].
  unfold readOnly, pgStep, rowsOf.
  destruct (parseStatement sql), (table db); try discriminate;
    try reflexivity.
  intros _. destruct params as [|g [|g' more]]; reflexivity.
Qed.

Lemma replay_readOnly (h sent : list Call) :
  Forall (fun c => readOnly c = true) sent ->
  rowsOf (replay prepareValue (h ++ sent)) = rowsOf (replay prepareValue h).
Proof.
  intros Hs. revert h. induction Hs as [|c sent Hc _ IH]; intros h.
  - now rewrite app_nil_r.
  - change (h ++ c :: sent) with (h ++ [c] ++ sent).
    rewrite app_assoc, IH, replay_snoc. now apply pgStep_readOnly.
Qed.

Lemma afterCalls_keepsRows (e e' : Entry) (sent : list Call) :
  name e' = name e ->
  pool e' = afterCalls sent (pool e) ->
  Forall (fun c => readOnly c = true) sent ->
  keepsRows prepareValue e e'.
Proof.
  intros Hn Hp Hs. split; [exact Hn|]. intros h Hh. exists sent.
  rewrite Hp, Hh. split; [reflexivity|].
  unfold storedRows. simpl history. now apply replay_readOnly.
Qed.

Lemma keepsRows_map (f : Entry -> Entry) (w : World) :
  (forall e, keepsRows prepareValue e (f e)) ->
  Forall2 (keepsRows prepareValue) w (map f w).
Proof. apply Forall2_map_right. Qed.

(** X5. None of [isGuidExists], [testAllConnections], [getAllDatabaseStats]
    and [closeAllConnections] changes what a healthy backend stores: each
    entry of the registry keeps its name, and a healthy backend is left
    healthy with exactly the rows it had.  Only [savePosts] writes. *)
Theorem readers_and_shutdown_keep_stored_rows
  (parseInt : Value -> Value) (g : Value) (w : World) :
  Forall2 (keepsRows prepareValue) w (snd (isGuidExists g w))
  /\ Forall2 (keepsRows prepareValue) w (snd (testAllConnections w))
  /\ Forall2 (keepsRows prepareValue) w (snd (getAllDatabaseStats parseInt w))
  /\ Forall2 (keepsRows prepareValue) w (snd (closeAllConnections w)).
Proof.
  split; [|split; [|split]].
  - eapply Forall2_impl; [|apply isGuidExists_world].
    intros e e' [->| ->].
    + apply (afterCalls_keepsRows e e []); [reflexivity| |constructor].
      unfold afterCalls. rewrite app_nil_r. now destruct (pool e).
    + apply (afterCalls_keepsRows e _ [Query guidQuery [g]]);
        [reflexivity | reflexivity |].
      repeat constructor.
  - rewrite testAllConnections_world. apply keepsRows_map. intros e.
    apply (afterCalls_keepsRows e _ [Query pingQuery []]);
      [reflexivity | reflexivity |].
    repeat constructor.
  - rewrite getAllDatabaseStats_world. apply keepsRows_map. intros e.
    apply (afterCalls_keepsRows e _ (statsCalls (pool e)));
      [reflexivity | reflexivity |].
    unfold statsCalls.
    destruct (resolves (answer (pool e) (Query countQuery [])));
      repeat constructor.
  - rewrite closeAllConnections_releases. apply keepsRows_map. intros e.
    apply (afterCalls_keepsRows e _ [End]); [reflexivity | reflexivity |].
    repeat constructor.
Qed.

End ReadOnly.

(** The rows written by the sample batch are still there after every reader
    and the shutdown have run. *)
Example readers_keep_sample_rows :
  rowCounts textOnly
    (snd ((savePosts (VArr sampleBatch) ;;;
           isGuidExists (VStr "g9") ;;;
           testAllConnections ;;;
           getAllDatabaseStats parseDecimal ;;;
           closeAllConnections) (single textOnly "Neon" []))) = [2].
Proof. reflexivity. Qed.

(** ** Writing, then reading *)

Section WriteThenRead.

Variable prepareValue : Value -> option string.

Lemma finds_healthy (g : Value) (h : list Call) :
  finds g (healthyPool prepareValue h)
  = guidTaken (prepareValue g)
      (storedRows prepareValue (healthyPool prepareValue h)).
Proof.
  unfold finds, answer, storedRows, rowsOf. simpl respond. simpl history.
  unfold pgRespond, pgStep. rewrite parse_guidQuery.
  destruct (table (replay prepareValue h)) as [rs|]; simpl.
  - now destruct (guidTaken (prepareValue g) rs).
  - now destruct (prepareValue g).
Qed.

Lemma insertPosts_covers_post (posts : list Value) (x : Value) (g : string)
      (now : nat) (rs : list Row) :
  In x posts ->
  guidOf prepareValue x = Some g ->
  guidTaken (Some g) (insertPosts prepareValue posts now rs) = true.
Proof.
  intros Hin Hg. revert now rs.
  induction posts as [|y ys IH]; intros now rs; [easy|].
  cbn [insertPosts]. destruct Hin as [->|Hin].
  - apply guidTaken_insertPosts. now apply guidTaken_inserted.
  - now apply IH.
Qed.

Lemma batchSucceeds_healthy (posts : list Value) (h : list Call) :
  Forall (fun x => isNullish x = false) posts ->
  batchSucceeds posts (healthyPool prepareValue h) = true.
Proof.
  intros Hposts.
  destruct (saveTask_healthy prepareValue "" h posts Hposts) as [Hrun _].
  destruct (saveTask_outcome posts "" (healthyPool prepareValue h))
    as (v & Hv & _ & Hs).
  rewrite Hrun in Hv. simpl in Hv. injection Hv as <-. now rewrite <- Hs.
Qed.

(** X6. Write, then look up.  When the registry holds a healthy backend,
    first or not, writing a batch of readable posts returns normally
    whatever the other backends do, and afterwards [isGuidExists] answers
    true for the guid of every post of the batch that has one. *)
Theorem savePosts_then_isGuidExists_finds
  (before after : list Entry) (n : string) (h : list Call)
  (posts : list Value) (x : Value) (g : string) :
  Forall (fun y => isNullish y = false) posts ->
  In x posts ->
  guidOf prepareValue x = Some g ->
  fst (savePosts (VArr posts)
         (before ++ {| name := n; pool := healthyPool prepareValue h |} :: after))
  = Return tt
  /\ fst (isGuidExists (getPropOpt x "guid")
            (snd (savePosts (VArr posts)
                    (before
                       ++ {| name := n; pool := healthyPool prepareValue h |}
                       :: after))))
     = Return true.
Proof.
  intros Hposts Hin Hg.
  set (e := {| name := n; pool := healthyPool prepareValue h |}).
  assert (Hne : posts <> []) by (intros ->; easy).
  split.
  - rewrite (savePosts_batch posts _ Hne).
    destruct (_ =? 0)%nat eqn:E; [|reflexivity].
    apply Nat.eqb_eq, filter_nil_iff in E. rewrite Forall_forall in E.
    assert (He : batchSucceeds posts (pool e) = false)
      by (apply E, in_or_app; right; now left).
    unfold e in He. simpl in He.
    now rewrite (batchSucceeds_healthy posts h Hposts) in He.
  - rewrite (savePosts_world posts _ Hne), isGuidExists_found. f_equal.
    apply existsb_exists.
    exists {| name := n; pool := healthyPool prepareValue (h ++ batchCalls posts) |}.
    split.
    + apply in_map_iff. exists e. split; [|apply in_or_app; right; now left].
      unfold runOn, e. cbn [name pool].
      destruct (saveTask_healthy prepareValue n h posts Hposts) as [-> _].
      reflexivity.
    + cbn [pool]. rewrite finds_healthy.
      destruct (saveTask_healthy prepareValue n h posts Hposts) as [_ Hrows].
      unfold batchCalls. rewrite Hrows.
      change (prepareValue (getPropOpt x "guid")) with (guidOf prepareValue x).
      rewrite Hg. now apply insertPosts_covers_post with (x := x).
Qed.

Lemma existsb_ext_Forall {A} (f g : A -> bool) (l : list A) :
  Forall (fun a => f a = g a) l -> existsb f l = existsb g l.
Proof. induction 1 as [|a l Ha _ IH]; simpl; [reflexivity|]. now rewrite Ha, IH. Qed.

(** X7. On a registry of healthy backends the reader answers from the data:
    [isGuidExists] is true exactly when some backend stores a row with that
    guid.  A guid the driver sends as NULL ([null], [undefined]) is never
    found, whatever is stored. *)
Theorem isGuidExists_on_healthy_registry (g : Value) (w : World) :
  Forall (fun e => exists h, pool e = healthyPool prepareValue h) w ->
  fst (isGuidExists g w)
  = Return (existsb (fun e => guidTaken (prepareValue g)
                                (storedRows prepareValue (pool e))) w)
  /\ (prepareValue g = None -> fst (isGuidExists g w) = Return false).
Proof.
  intros Hw.
  assert (Heq : fst (isGuidExists g w)
                = Return (existsb (fun e => guidTaken (prepareValue g)
                                              (storedRows prepareValue (pool e)))
                            w)).
  { rewrite isGuidExists_found. f_equal. apply existsb_ext_Forall.
    eapply Forall_impl; [|exact Hw]. intros e [h ->]. apply finds_healthy. }
  split; [exact Heq|].
  intros Hnull. rewrite Heq, Hnull. f_equal.
  clear. induction w; simpl; auto.
Qed.

End WriteThenRead.

Lemma savePosts_then_isGuidExists_finds_witness :
  fst (savePosts (VArr sampleBatch)
         ([unreachable "Aiven PostgreSQL"; unreachable "CockroachDB"]
            ++ {| name := "Neon"; pool := healthyPool textOnly [] |} :: []))
  = Return tt
  /\ fst (isGuidExists (getPropOpt (post "g2" "second") "guid")
            (snd (savePosts (VArr sampleBatch)
                    ([unreachable "Aiven PostgreSQL"; unreachable "CockroachDB"]
                       ++ {| name := "Neon"; pool := healthyPool textOnly [] |}
                       :: []))))
     = Return true.
Proof.
  apply (savePosts_then_isGuidExists_finds textOnly
           [unreachable "Aiven PostgreSQL"; unreachable "CockroachDB"] []
           "Neon" [] sampleBatch (post "g2" "second") "g2").
  - repeat constructor.
  - right. left. reflexivity.
  - reflexivity.
Defined.

Lemma isGuidExists_on_healthy_registry_witness :
  fst (isGuidExists (VStr "g2")
         [holder "Aiven PostgreSQL" "g1"; holder "CockroachDB" "g2"])
  = Return true
  /\ fst (isGuidExists VUndefined
            [holder "Aiven PostgreSQL" "g1"; holder "CockroachDB" "g2"])
     = Return false.
Proof.
  assert (H : Forall (fun e => exists h, pool e = healthyPool textOnly h)
                [holder "Aiven PostgreSQL" "g1"; holder "CockroachDB" "g2"])
    by (repeat constructor; eexists; reflexivity).
  split.
  - rewrite (proj1 (isGuidExists_on_healthy_registry textOnly (VStr "g2") _ H)).
    reflexivity.
  - apply (proj2 (isGuidExists_on_healthy_registry textOnly VUndefined _ H)).
    reflexivity.
Defined.

(** ** What a write does to the stored rows *)

Lemma insertRow_appends (r : Row) (rs : list Row) :
  exists added, insertRow r rs = rs ++ added /\ List.length added <= 1.
Proof.
  unfold insertRow. destruct (guidTaken (guid r) rs).
  - exists []. rewrite app_nil_r. auto.
  - exists [r]. auto.
Qed.

Section Stored.

Variable prepareValue : Value -> option string.

(** A call leaves the rows as they are or inserts one row. *)
Lemma pgStep_rows (db : Db) (c : Call) :
  rowsOf (snd (pgStep prepareValue db c)) = rowsOf db
  \/ exists r, rowsOf (snd (pgStep prepareValue db c)) = insertRow r (rowsOf db).
Proof.
  destruct c as [sql params|]; [|now left].
  unfold pgStep, rowsOf.
  destruct (parseStatement sql), (table db) as [rs|]; try (now left).
  - destruct (rowOf prepareValue params (clock db)) as [r|]; [|now left].
    right. now exists r.
  - destruct params as [|g [|g' more]]; now left.
Qed.

Lemma replay_appends (sent h : list Call) :
  exists added,
    rowsOf (replay prepareValue (h ++ sent))
    = rowsOf (replay prepareValue h) ++ added
    /\ List.length added <= List.length sent.
Proof.
  revert h. induction sent as [|c sent IH]; intros h.
  - exists []. now rewrite !app_nil_r.
  - change (h ++ c :: sent) with (h ++ [c] ++ sent). rewrite app_assoc.
    destruct (IH (h ++ [c])) as (added & -> & Hlen).
    rewrite replay_snoc.
    destruct (pgStep_rows (replay prepareValue h) c) as [->|[r ->]].
    + exists added. simpl. split; [reflexivity|]. lia.
    + destruct (insertRow_appends r (rowsOf (replay prepareValue h)))
        as (one & -> & Hone).
      exists (one ++ added). rewrite <- app_assoc. split; [reflexivity|].
      rewrite length_app. simpl. lia.
Qed.

Lemma savePosts_pools (posts : Value) (w : World) :
  Forall2 (fun e e' =>
             name e' = name e
             /\ exists sent,
                 pool e' = afterCalls sent (pool e)
                 /\ (sent = []
                     \/ exists inserts rest,
                         sent = Query createTableQuery [] :: inserts
                         /\ map insertCall (arrayItems posts)
                            = inserts ++ rest))
    w (snd (savePosts posts w)).
Proof.
  destruct (negb (isArray posts) || (List.length (arrayItems posts) =? 0)%nat)
    eqn:Hguard.
  - unfold savePosts. rewrite Hguard. simpl.
    induction w as [|e rest IH]; constructor; [|exact IH].
    split; [reflexivity|]. exists []. split; [|now left].
    unfold afterCalls. rewrite app_nil_r. now destruct (pool e).
  - apply orb_false_elim in Hguard. destruct Hguard as [Harr Hlen].
    destruct posts as [| | | | | | |items]; try discriminate.
    simpl arrayItems in *.
    assert (Hne : items <> []) by (intros ->; discriminate).
    rewrite (savePosts_world items w Hne).
    apply Forall2_map_right. intros e. unfold runOn.
    destruct (saveTask_sends items (name e) (pool e))
      as (sent & rest & Hs & Hb & Hn & _).
    destruct (saveTask items (name e) (pool e)) as [c p']. simpl in *.
    split; [reflexivity|]. exists sent. split; [exact Hs|]. right.
    unfold batchCalls in Hb. destruct sent as [|c0 inserts]; [congruence|].
    injection Hb as <- Hb. now exists inserts, rest.
Qed.

(** X8. [savePosts] only adds rows.  Whatever it is given, and whatever the
    other backends do, a healthy backend is left healthy, storing the rows
    it had, unchanged and in place, followed by at most one new row per
    element of the batch: no stored row is updated or removed. *)
Theorem savePosts_only_appends_rows (posts : Value) (w : World) :
  Forall2 (appendsAtMost prepareValue (List.length (arrayItems posts)))
    w (snd (savePosts posts w)).
Proof.
  eapply Forall2_impl; [|apply savePosts_pools].
  intros e e' (Hn & sent & Hp & Hsent). split; [exact Hn|].
  intros h Hh. rewrite Hp, Hh. unfold storedRows. simpl history.
  destruct Hsent as [->|(inserts & rest & -> & Hm)].
  - exists [], []. split; [reflexivity|]. rewrite !app_nil_r.
    split; [reflexivity | simpl; lia].
  - destruct (replay_appends inserts (h ++ [Query createTableQuery []]))
      as (added & Hrows & Hlen).
    exists (Query createTableQuery [] :: inserts), added.
    split; [reflexivity|].
    change (h ++ Query createTableQuery [] :: inserts)
      with (h ++ [Query createTableQuery []] ++ inserts).
    rewrite app_assoc, Hrows, replay_snoc, pgStep_create. simpl snd.
    split.
    + unfold rowsOf at 1. reflexivity.
    + rewrite <- (length_map insertCall), Hm, length_app. lia.
Qed.

End Stored.

Lemma Forall2_single {A B} (R : A -> B -> Prop) (a : A) (l : list B) :
  Forall2 R [a] l -> exists b, l = [b] /\ R a b.
Proof.
  intros H. inversion H as [|? b ? l' Hab Hl]; subst.
  inversion Hl; subst. now exists b.
Qed.

Lemma savePosts_only_appends_rows_witness :
  exists e',
    snd (savePosts (VArr sampleBatch) (holder "Neon" "g1" :: nil)) = [e']
    /\ exists sent added,
        pool e' = healthyPool textOnly (written "g1" "first" ++ sent)
        /\ storedRows textOnly (pool e')
           = storedRows textOnly (pool (holder "Neon" "g1")) ++ added
        /\ List.length added <= 3.
Proof.
  destruct (Forall2_single _ _ _
              (savePosts_only_appends_rows textOnly (VArr sampleBatch)
                 [holder "Neon" "g1"])) as (e' & He & _ & Hrows).
  exists e'. split; [exact He|]. apply Hrows. reflexivity.
Defined.

Lemma readers_and_shutdown_keep_stored_rows_witness :
  exists e',
    snd (getAllDatabaseStats parseDecimal (holder "Neon" "g1" :: nil)) = [e']
    /\ storedRows textOnly (pool e')
       = storedRows textOnly (pool (holder "Neon" "g1")).
Proof.
  destruct (readers_and_shutdown_keep_stored_rows textOnly parseDecimal
              (VStr "g1") [holder "Neon" "g1"]) as (_ & _ & Hstats & _).
  destruct (Forall2_single _ _ _ Hstats) as (e' & He & _ & Hrows).
  exists e'. split; [exact He|].
  destruct (Hrows (written "g1" "first") eq_refl) as (sent & _ & Heq).
  exact Heq.
Defined.

(** ** The fields of a snapshot *)

Lemma orElse_null (v : Value) :
  orElse v VNull = VNull \/ truthy (orElse v VNull) = true.
Proof. unfold orElse. destruct (truthy v) eqn:E; auto. Qed.

(** X10. In every snapshot [getAllDatabaseStats] returns, [latestPost] is
    [null] or a truthy value: a backend without rows, or one whose latest
    timestamp reads as a falsy value, is reported with [null], never with
    [undefined].  The [error] field is present exactly on the snapshots
    whose status is "error", the others have status "healthy". *)
Theorem getAllDatabaseStats_snapshot_fields
  (parseInt : Value -> Value) (w : World) :
  exists snapshots,
    fst (getAllDatabaseStats parseInt w) = Return (map inl snapshots)
    /\ Forall (fun s =>
                 (latestPost s = VNull \/ truthy (latestPost s) = true)
                 /\ ((status s = "healthy" /\ st_error s = None)
                     \/ (status s = "error" /\ latestPost s = VNull
                         /\ exists m, st_error s = Some m))) snapshots.
Proof.
  rewrite getAllDatabaseStats_results.
  induction w as [|e rest (snapshots & Hret & Hall)].
  - exists []. split; [reflexivity | constructor].
  - destruct (statsTask_snapshot parseInt (name e) (pool e))
      as (s & Hs & _ & Hf & Hh).
    exists (s :: snapshots). simpl. rewrite Hs. injection Hret as ->.
    split; [reflexivity|]. constructor; [|exact Hall].
    destruct (statsFailure (pool e)) as [err|].
    + rewrite (Hf err eq_refl). simpl. split; [now left|]. right.
      repeat split. now exists (message err).
    + destruct (Hh eq_refl) as (cr & lr & c & _ & _ & _ & ->). simpl.
      split; [apply orElse_null | now left].
Qed.

(** ** The order of the registry *)

Lemma existsb_Permutation {A} (f : A -> bool) (l l' : list A) :
  Permutation l l' -> existsb f l = existsb f l'.
Proof.
  induction 1 as [|x l l' _ IH|x y l|l l' l'' _ IH1 _ IH2]; simpl.
  - reflexivity.
  - now rewrite IH.
  - now destruct (f x), (f y).
  - now rewrite IH1.
Qed.

Lemma filter_length_Permutation {A} (f : A -> bool) (l l' : list A) :
  Permutation l l' ->
  List.length (filter f l) = List.length (filter f l').
Proof.
  induction 1 as [|x l l' _ IH|x y l|l l' l'' _ IH1 _ IH2]; simpl.
  - reflexivity.
  - destruct (f x); simpl; now rewrite IH.
  - now destruct (f x), (f y).
  - now rewrite IH1.
Qed.

(** X11. The order of the registry decides which pools are asked, not what
    the caller gets: over two registries holding the same entries in a
    different order, [savePosts] throws or returns alike, and
    [isGuidExists] gives the same answer.  The primary has no say of its
    own in either result. *)
Theorem results_do_not_depend_on_registry_order
  (posts g : Value) (w w' : World) :
  Permutation w w' ->
  fst (savePosts posts w) = fst (savePosts posts w')
  /\ fst (isGuidExists g w) = fst (isGuidExists g w').
Proof.
  intros Hperm. split.
  - destruct (negb (isArray posts) || (List.length (arrayItems posts) =? 0)%nat)
      eqn:Hguard.
    + unfold savePosts. now rewrite Hguard.
    + apply orb_false_elim in Hguard. destruct Hguard as [Harr Hlen].
      destruct posts as [| | | | | | |items]; try discriminate.
      assert (Hne : items <> []) by (intros ->; discriminate).
      rewrite !(savePosts_batch items _ Hne).
      now rewrite (filter_length_Permutation _ w w' Hperm).
  - rewrite !isGuidExists_found. f_equal. now apply existsb_Permutation.
Qed.

Lemma results_do_not_depend_on_registry_order_witness :
  Permutation sampleWorld (rev sampleWorld)
  /\ fst (savePosts (VArr sampleBatch) sampleWorld)
     = fst (savePosts (VArr sampleBatch) (rev sampleWorld))
  /\ fst (isGuidExists (VStr "g1") sampleWorld)
     = fst (isGuidExists (VStr "g1") (rev sampleWorld)).
Proof.
  split; [apply Permutation_rev|].
  apply results_do_not_depend_on_registry_order. apply Permutation_rev.
Defined.

(** ** Probing and counting a healthy backend *)

Section HealthyStats.

Variable prepareValue : Value -> option string.
Variable parseInt : Value -> Value.

Lemma answer_healthy (h : list Call) (c : Call) :
  answer (healthyPool prepareValue h) c
  = fst (pgStep prepareValue (replay prepareValue h) c).
Proof. reflexivity. Qed.

(** X12. A healthy backend always passes the probe.  Its statistics depend on
    whether [savePosts] has created the table: before that both statistics
    queries are refused and the snapshot is the error sentinel, with the
    message of the refusal, although the probe reports the backend as
    connected; afterwards the snapshot is healthy, [totalPosts] is [parseInt]
    of the number of stored rows in decimal, and [latestPost] is [null] as
    long as no row is stored. *)
Theorem healthy_backend_probe_and_statistics (n : string) (h : list Call) :
  fst (testAllConnections (single prepareValue n h))
  = Return [Fulfilled {| pr_name := n; connected := true; pr_error := None |}]
  /\ (table (replay prepareValue h) = None ->
      fst (getAllDatabaseStats parseInt (single prepareValue n h))
      = Return [inl (errorSnapshot n missingTable)])
  /\ (forall rs,
         table (replay prepareValue h) = Some rs ->
         exists latest,
           fst (getAllDatabaseStats parseInt (single prepareValue n h))
           = Return [inl {| st_name := n;
                            totalPosts :=
                              parseInt (VStr (decimal (List.length rs)));
                            latestPost := latest;
                            status := "healthy";
                            st_error := None |}]
           /\ (rs = [] -> latest = VNull)).
Proof.
  split; [|split].
  - rewrite testAllConnections_results. unfold single, probeOf.
    cbn [map name pool]. rewrite answer_healthy. unfold pgStep.
    rewrite parse_pingQuery. reflexivity.
  - intros Hnone. rewrite getAllDatabaseStats_results. unfold single.
    cbn [map name pool].
    unfold statsTask, tryCatch, bind, lift, query, call.
    rewrite answer_healthy. unfold pgStep.
    rewrite parse_countQuery, Hnone. reflexivity.
  - intros rs Hrs.
    assert (Hrs' : table (replay prepareValue (h ++ [Query countQuery []]))
                   = Some rs).
    { rewrite replay_snoc. unfold pgStep.
      rewrite parse_countQuery, Hrs. reflexivity. }
    eexists. rewrite getAllDatabaseStats_results. unfold single.
    cbn [map name pool].
    unfold statsTask, tryCatch, bind, lift, query, call.
    rewrite answer_healthy. unfold pgStep at 1.
    rewrite parse_countQuery, Hrs. cbn [fst selected].
    rewrite record_healthy, answer_healthy. unfold pgStep at 1.
    rewrite parse_latestQuery, Hrs'. cbn [fst selected].
    split; [reflexivity|]. intros ->. reflexivity.
Qed.

End HealthyStats.

Lemma healthy_backend_probe_and_statistics_witness :
  fst (getAllDatabaseStats parseDecimal (single textOnly "Neon" []))
  = Return [inl (errorSnapshot "Neon" missingTable)]
  /\ exists latest,
      fst (getAllDatabaseStats parseDecimal
             (single textOnly "Neon" (written "g1" "first")))
      = Return [inl {| st_name := "Neon";
                       totalPosts :=
                         parseDecimal
                           (VStr (decimal
                                    (List.length
                                       (storedRows textOnly
                                          (pool (holder "Neon" "g1"))))));
                       latestPost := latest;
                       status := "healthy";
                       st_error := None |}]
      /\ (storedRows textOnly (pool (holder "Neon" "g1")) = [] ->
          latest = VNull).
Proof.
  split.
  - apply (proj1 (proj2 (healthy_backend_probe_and_statistics textOnly
                           parseDecimal "Neon" []))).
    reflexivity.
  - apply (proj2 (proj2 (healthy_backend_probe_and_statistics textOnly
                           parseDecimal "Neon" (written "g1" "first")))).
    reflexivity.
Defined.

(** Written once, the sample batch is counted as two posts. *)
Example getAllDatabaseStats_after_write :
  fst ((savePosts (VArr sampleBatch) ;;; getAllDatabaseStats parseDecimal)
         (single textOnly "Neon" []))
  = Return [inl {| st_name := "Neon"; totalPosts := VNum 2;
                   latestPost := VNum 3; status := "healthy";
                   st_error := None |}].
Proof. reflexivity. Qed.
